(** * vue-mini, packages/compiler-core: the template parser (parse.ts) and
      the transform pipeline (compile.ts), embedded as Rocq functions.

    Conventions of the embedding.
    - A JavaScript string is a [string]: a sequence of code units, here the
      8-bit ones (code points below 256).  Numbers that index strings are
      [Z], because [indexOf] answers -1 and [slice] accepts negative
      arguments.
    - [undefined] is [None]; a property that may be missing has an [option]
      type.
    - An abrupt completion ([throw], or a TypeError raised by reading a
      property of [undefined] or [null]) is an explicit [Thrown] result.
    - The parser's [while] loop and its mutual recursion are given a step
      budget; [OutOfFuel] means that the budget was too small, and a call
      that answers [OutOfFuel] for every budget never returns.
    - The [console.log] calls of parse.ts write to the console only and are
      left out. *)

From Stdlib Require Import String Ascii List ZArith Lia Bool Arith.
Import ListNotations.

Set Warnings "-register-all".

(* ================================================================== *)
(** ** String primitives of the host language *)

Module JS.

(** [s[i]]: the code unit at index [i], [undefined] out of range. *)
Definition charAt (s : string) (i : nat) : option ascii := String.get i s.

(** [source.startsWith(searchString)]. *)
Definition startsWith (source searchString : string) : bool :=
  String.prefix searchString source.

(** Relative index resolution shared by [slice]'s two arguments: a negative
    index counts from the end, and the result is clamped to [0, len]. *)
Definition relativeIndex (len k : Z) : Z :=
  if (k <? 0)%Z then Z.max (len + k) 0 else Z.min k len.

(** [s.slice(start, end)]. *)
Definition slice (s : string) (start end_ : Z) : string :=
  let len := Z.of_nat (String.length s) in
  let from := relativeIndex len start in
  let to := relativeIndex len end_ in
  String.substring (Z.to_nat from) (Z.to_nat (Z.max (to - from) 0)) s.

(** [s.slice(start)]: the end defaults to the length. *)
Definition sliceFrom (s : string) (start : Z) : string :=
  slice s start (Z.of_nat (String.length s)).

(** [s.indexOf(searchString, position)]: the first index at or after
    [position] where [searchString] occurs, -1 when there is none. *)
Definition indexOf (s searchString : string) (position : Z) : Z :=
  let len := Z.of_nat (String.length s) in
  let start := Z.min (Z.max position 0) len in
  match String.index (Z.to_nat start) searchString s with
  | Some k => Z.of_nat k
  | None => (-1)%Z
  end.

Definition inRange (lo hi n : nat) : bool := (lo <=? n) && (n <=? hi).

(** The character class [a-z] under the [i] flag: the 52 ASCII letters. *)
Definition isAsciiLetter (c : ascii) : bool :=
  let n := nat_of_ascii c in inRange 65 90 n || inRange 97 122 n.

(** One code unit of [toLowerCase]: A-Z, and the Latin-1 capitals
    U+00C0-U+00D6 and U+00D8-U+00DE, move up by 32. *)
Definition lowerChar (c : ascii) : ascii :=
  let n := nat_of_ascii c in
  if inRange 65 90 n || inRange 192 214 n || inRange 216 222 n
  then ascii_of_nat (n + 32)
  else c.

(** [s.toLowerCase()]. *)
Fixpoint toLowerCase (s : string) : string :=
  match s with
  | EmptyString => EmptyString
  | String c r => String (lowerChar c) (toLowerCase r)
  end.

(** White space and line terminators below 256, as [trim] removes them. *)
Definition isWhiteSpace (c : ascii) : bool :=
  let n := nat_of_ascii c in inRange 9 13 n || (n =? 32) || (n =? 160).

Fixpoint trimStart (s : string) : string :=
  match s with
  | EmptyString => EmptyString
  | String c r => if isWhiteSpace c then trimStart r else s
  end.

Fixpoint trimEnd (s : string) : string :=
  match s with
  | EmptyString => EmptyString
  | String c r =>
      match trimEnd r with
      | EmptyString => if isWhiteSpace c then EmptyString else String c EmptyString
      | r' => String c r'
      end
  end.

(** [s.trim()]. *)
Definition trim (s : string) : string := trimEnd (trimStart s).

End JS.

(* ================================================================== *)
(** ** Results of calls that may throw or run for ever *)

(** What the code throws: the [Error] of [parseElement], whose message is
    the fixed text followed by the tag name, and the engine's TypeError
    for a property read on [undefined] or [null]. *)
Inductive Exception : Type :=
| MissingClosingTag (tag : string)
| TypeError.

Inductive outcome (A : Type) : Type :=
| Done (a : A)
| Thrown (e : Exception)
| OutOfFuel.

Arguments Done {A} a.
Arguments Thrown {A} e.
Arguments OutOfFuel {A}.

Definition bind {A B : Type} (m : outcome A) (k : A -> outcome B) : outcome B :=
  match m with
  | Done a => k a
  | Thrown e => Thrown e
  | OutOfFuel => OutOfFuel
  end.

Declare Scope outcome_scope.
Delimit Scope outcome_scope with outcome.
Notation "x <- m ;; k" := (bind m (fun x => k))
  (at level 61, m at next level, right associativity) : outcome_scope.
Notation "' pat <- m ;; k" :=
  (bind m (fun x => match x with pat => k end))
  (at level 61, pat pattern, m at next level, right associativity)
  : outcome_scope.

(* ================================================================== *)
(** ** The enumerations of ./ast *)

Module Ast.

(** Modelled from the spec: the node-kind enumeration [NodeTypes] of the
    module ./ast, which is not among the sources; the spec asks for a
    closed set of kinds with at least root, element, interpolation and
    text. *)
Inductive NodeTypes : Type := ROOT | ELEMENT | INTERPOLATION | TEXT.

(** Modelled from the spec: the enumeration [ElementTypes] of ./ast, of
    which parse.ts uses the one member "plain element". *)
Inductive ElementTypes : Type := PLAIN_ELEMENT.

End Ast.

(* ================================================================== *)
(** ** parse.ts *)

Module Parse.

Import Ast.

Local Open Scope string_scope.
Local Open Scope nat_scope.
Local Open Scope outcome_scope.

Inductive TagType : Type := Start | End.

(** The objects the parser builds.  [parseTag] creates
    [{ type, tag, tagType }]; [parseElement] later sets [children] to
    whatever [parseChildren] returned. *)
Inductive Node : Type :=
  mkNode (type : NodeTypes) (tag : string) (tagType : ElementTypes)
         (children : option (list Node)).

Definition type (n : Node) : NodeTypes := let (t, _, _, _) := n in t.
Definition tag (n : Node) : string := let (_, t, _, _) := n in t.
Definition tagType (n : Node) : ElementTypes := let (_, _, t, _) := n in t.
Definition children (n : Node) : option (list Node) := let (_, _, _, c) := n in c.

(** [element["children"] = children]. *)
Definition set_children (n : Node) (c : option (list Node)) : Node :=
  mkNode (type n) (tag n) (tagType n) c.

(** The object [createRoot] returns: [{ type, children, helpers }]. *)
Record RootNode : Type := mkRoot {
  root_type : NodeTypes;
  root_children : option (list Node);
  root_helpers : list string
}.

(** The parser context: [{ source }]. *)
Record ParserContext : Type := mkContext { source : string }.

Definition createParserContext (content : string) : ParserContext :=
  {| source := content |}.

Definition createRoot (children : option (list Node)) : RootNode :=
  {| root_type := ROOT; root_children := children; root_helpers := [] |}.

(** [context.source = context.source.slice(numberOfCharacters)]. *)
Definition advanceBy (context : ParserContext) (numberOfCharacters : Z)
  : ParserContext :=
  {| source := JS.sliceFrom (source context) numberOfCharacters |}.

(** Returns the raw text and the advanced context. *)
Definition parseTextData (context : ParserContext) (length : Z)
  : string * ParserContext :=
  let rawText := JS.slice (source context) 0 length in
  let context := advanceBy context length in
  (rawText, context).

Definition startsWith (source searchString : string) : bool :=
  JS.startsWith source searchString.

Definition startsWithEndTagOpen (source tag : string) : bool :=
  startsWith source "</" &&
  String.eqb
    (JS.toLowerCase (JS.slice source 2 (2 + Z.of_nat (String.length tag))))
    (JS.toLowerCase tag).

(** The function has no [return] statement: every call answers
    [undefined], here [None], next to the advanced context.  The trimmed
    [content] is bound and then dropped, as in the source. *)
Definition parseInterpolation (context : ParserContext)
  : option Node * ParserContext :=
  let openDelimiter := "{{" in
  let closeDelimiter := "}}" in
  let closeIndex :=
    JS.indexOf (source context) closeDelimiter
               (Z.of_nat (String.length openDelimiter)) in
  let context := advanceBy context 2 in
  let rawContentLength :=
    (closeIndex - Z.of_nat (String.length openDelimiter))%Z in
  let rawContent := JS.slice (source context) 0 rawContentLength in
  let '(preTrimContent, context) :=
    parseTextData context (Z.of_nat (String.length rawContent)) in
  let content := JS.trim preTrimContent in
  let context := advanceBy context (Z.of_nat (String.length closeDelimiter)) in
  (None, context).

(** The negated class of the tag pattern: any character but CR, LF, TAB,
    FF, space, slash and [>]. *)
Definition isTagNameChar (c : ascii) : bool :=
  let n := nat_of_ascii c in
  negb ((n =? 13) || (n =? 10) || (n =? 9) || (n =? 12) ||
        (n =? 32) || (n =? 47) || (n =? 62)).

(** The longest prefix whose characters all satisfy [p] (a greedy star). *)
Fixpoint takeWhile (p : ascii -> bool) (s : string) : string :=
  match s with
  | EmptyString => EmptyString
  | String c r => if p c then String c (takeWhile p r) else EmptyString
  end.

(** The capture group of the tag pattern, matched at the start of [s]: one
    ASCII letter, then the longest run of tag-name characters. *)
Definition matchTagName (s : string) : option string :=
  match s with
  | String c r =>
      if JS.isAsciiLetter c then Some (String c (takeWhile isTagNameChar r))
      else None
  | EmptyString => None
  end.

(** The pattern of [parseTag], anchored at the start of [s] and executed
    with the [i] flag: a [<], an optional slash, and the capture group.
    [None] stands for [null], otherwise the result holds the whole match
    and the group.  When a slash follows the [<] the optional slash takes
    it; giving it back cannot help, because the group would then have to
    start at the slash. *)
Definition execTagRegex (s : string) : option (string * string) :=
  match s with
  | String "<"%char r =>
      match r with
      | String "/"%char r' =>
          match matchTagName r' with
          | Some name => Some ("</" ++ name, name)
          | None => None
          end
      | _ =>
          match matchTagName r with
          | Some name => Some ("<" ++ name, name)
          | None => None
          end
      end
  | _ => None
  end.

(** [/[a-z]/i.test(x)] for [x = s[i]]: a one-character string is tested as
    it is, and [undefined] is first converted to the text "undefined",
    which contains letters. *)
Definition testLetter (x : option ascii) : bool :=
  match x with
  | Some c => JS.isAsciiLetter c
  | None => true
  end.

Definition charIs (x : option ascii) (c : ascii) : bool :=
  match x with
  | Some d => Ascii.eqb d c
  | None => false
  end.

(** Reading [match[1]] throws when the regular expression did not match.
    An end tag yields [undefined], a start tag the new element. *)
Definition parseTag (context : ParserContext) (type : TagType)
  : outcome (option Node * ParserContext) :=
  match execTagRegex (source context) with
  | None => Thrown TypeError
  | Some (match0, tag) =>
      let context := advanceBy context (Z.of_nat (String.length match0)) in
      let context := advanceBy context 1 in
      match type with
      | End => Done (None, context)
      | Start =>
          let tagType := PLAIN_ELEMENT in
          Done (Some (mkNode ELEMENT tag tagType None), context)
      end
  end.

(** The loop [for (let i = n - 1; i >= 0; --i)] of [isEnd], by the number
    [n] of indices still to visit. *)
Fixpoint isEndLoop (s : string) (ancestors : list Node) (n : nat) : bool :=
  match n with
  | 0 => false
  | S i =>
      match nth_error ancestors i with
      | Some a =>
          if startsWithEndTagOpen s (tag a) then true
          else isEndLoop s ancestors i
      | None => false
      end
  end.

(** [isEnd] returns [true] from inside the loop and otherwise falls off
    the end of its body; the caller only negates the result, so the
    [undefined] of the fall-through is [false] here. *)
Definition isEnd (context : ParserContext) (ancestors : list Node) : bool :=
  let s := source context in
  if JS.startsWith s "</" then isEndLoop s ancestors (List.length ancestors)
  else false.

(** [parseChildren] and [parseElement].  The [ancestors] array is shared
    and mutated by [push] and [pop], so it is threaded through the calls
    with the context.  The first component of a result is the returned
    value; [parseChildren] has no [return] statement, so it is [None]. *)
Fixpoint parseChildren (fuel : nat) (context : ParserContext)
    (ancestors : list Node) {struct fuel}
  : outcome (option (list Node) * ParserContext * list Node) :=
  match fuel with
  | 0 => OutOfFuel
  | S fuel' =>
      if isEnd context ancestors then Done (None, context, ancestors)
      else
        let s := source context in
        if startsWith s "{{" then
          let '(node, context) := parseInterpolation context in
          parseChildren fuel' context ancestors
        else if charIs (JS.charAt s 0) "<" then
          if charIs (JS.charAt s 1) "/" then
            if testLetter (JS.charAt s 2) then
              '(_, context) <- parseTag context End;;
              parseChildren fuel' context ancestors
            else parseChildren fuel' context ancestors
          else if testLetter (JS.charAt s 1) then
            '(node, context, ancestors) <- parseElement fuel' context ancestors;;
            parseChildren fuel' context ancestors
          else parseChildren fuel' context ancestors
        else parseChildren fuel' context ancestors
  end

with parseElement (fuel : nat) (context : ParserContext)
    (ancestors : list Node) {struct fuel}
  : outcome (option Node * ParserContext * list Node) :=
  match fuel with
  | 0 => OutOfFuel
  | S fuel' =>
      '(element, context) <- parseTag context Start;;
      match element with
      | None => Thrown TypeError
      | Some element =>
          let ancestors := (ancestors ++ [element])%list in
          '(children, context, ancestors) <-
             parseChildren fuel' context ancestors;;
          let ancestors := removelast ancestors in
          if startsWithEndTagOpen (source context) (tag element) then
            '(_, context) <- parseTag context End;;
            let element := set_children element children in
            Done (Some element, context, ancestors)
          else Thrown (MissingClosingTag (tag element))
      end
  end.

Definition baseParse (fuel : nat) (content : string) : outcome RootNode :=
  let context := createParserContext content in
  '(children, _, _) <- parseChildren fuel context [];;
  Done (createRoot children).

End Parse.

(* ================================================================== *)
(** ** compile.ts: the transform pipeline *)

Module Transform.

Import Ast.

Local Open Scope outcome_scope.

(** Objects are told apart by their address.  A property that holds a
    reference to an object (a [codegenNode], the context's [root]) holds
    the address, so that two references are to the same object exactly
    when the addresses are equal. *)
Definition loc : Type := nat.

Section Pipeline.

(** The keys of the helper map.  The one key the pipeline itself uses,
    [TO_DISPLAY_STRING], is imported from ./runtimeHelper, which is not
    among the sources: it is a parameter here. *)
Context {Helper : Type}.
Variable Helper_eq_dec : forall a b : Helper, {a = b} + {a <> b}.
Variable TO_DISPLAY_STRING : Helper.

(** Whatever state of their own the node-transform plugins read and
    write (the variables their closures capture). *)
Context {World : Type}.

(** The nodes compile.ts walks: it reads [type], [children] and
    [codegenNode], and writes [codegenNode] and [helpers] on the root. *)
Inductive node : Type :=
  mkNode (addr : loc) (type : NodeTypes) (children : option (list node))
         (codegenNode : option loc) (helpers : option (list Helper)).

Definition addr (n : node) : loc := let (a, _, _, _, _) := n in a.
Definition type (n : node) : NodeTypes := let (_, t, _, _, _) := n in t.
Definition children (n : node) : option (list node) :=
  let (_, _, c, _, _) := n in c.
Definition codegenNode (n : node) : option loc := let (_, _, _, g, _) := n in g.
Definition helpers (n : node) : option (list Helper) :=
  let (_, _, _, _, h) := n in h.

(** [root.codegenNode = v]. *)
Definition set_codegenNode (n : node) (v : option loc) : node :=
  mkNode (addr n) (type n) (children n) v (helpers n).

(** [root.helpers = v]. *)
Definition set_helpers (n : node) (v : option (list Helper)) : node :=
  mkNode (addr n) (type n) (children n) (codegenNode n) v.

(** A [Map] from helper keys to counts, in insertion order. *)
Definition HelperMap : Type := list (Helper * nat).

Fixpoint mapGet (m : HelperMap) (name : Helper) : option nat :=
  match m with
  | [] => None
  | (k, v) :: r => if Helper_eq_dec k name then Some v else mapGet r name
  end.

(** [set] overwrites the value of a key in place and appends a new key. *)
Fixpoint mapSet (m : HelperMap) (name : Helper) (v : nat) : HelperMap :=
  match m with
  | [] => [(name, v)]
  | (k, w) :: r =>
      if Helper_eq_dec k name then (k, v) :: r else (k, w) :: mapSet r name v
  end.

Definition mapKeys (m : HelperMap) : list Helper := map fst m.

(** The mutable part of the transform context. *)
Record ContextState : Type := mkState {
  ctx_helpers : HelperMap;
  ctx_world : World
}.

(** A cleanup function, and a node-transform plugin: called with the node
    and the context, it may return a cleanup function. *)
Definition ExitFn : Type := ContextState -> ContextState.
Definition NodeTransform : Type :=
  node -> ContextState -> ContextState * option ExitFn.

Record Options : Type := mkOptions {
  opt_nodeTransforms : option (list NodeTransform)
}.

Record TransformContext : Type := mkContext {
  root : loc;
  nodeTransforms : list NodeTransform;
  state : ContextState
}.

Definition with_state (context : TransformContext) (s : ContextState)
  : TransformContext :=
  {| root := root context; nodeTransforms := nodeTransforms context;
     state := s |}.

(** [options.nodeTransforms || []], and an empty map. *)
Definition createTransformContext (root : node) (options : Options)
    (world : World) : TransformContext :=
  {| root := addr root;
     nodeTransforms :=
       match opt_nodeTransforms options with Some l => l | None => [] end;
     state := {| ctx_helpers := []; ctx_world := world |} |}.

(** [context.helper(name)]: [get(name) || 0], then [set(name, count + 1)]. *)
Definition helper (context : TransformContext) (name : Helper)
  : TransformContext :=
  let s := state context in
  let count :=
    match mapGet (ctx_helpers s) name with Some c => c | None => 0 end in
  with_state context
    {| ctx_helpers := mapSet (ctx_helpers s) name (count + 1);
       ctx_world := ctx_world s |}.

(** The loop [for (let i = 0; i < nodeTransforms.length; i++)]: [n] counts
    the indices still to visit, [i] is the current one. *)
Fixpoint runNodeTransforms (n i : nat) (nodeTransforms : list NodeTransform)
    (nd : node) (acc : ContextState * list ExitFn)
  : ContextState * list ExitFn :=
  match n with
  | 0 => acc
  | S n' =>
      match nth_error nodeTransforms i with
      | Some transform =>
          let '(s, exitFns) := acc in
          let '(s, onExit) := transform nd s in
          let exitFns :=
            match onExit with
            | Some f => exitFns ++ [f]
            | None => exitFns
            end in
          runNodeTransforms n' (S i) nodeTransforms nd (s, exitFns)
      | None => acc
      end
  end.

(** The loop [while (i--) exitFns[i]()]. *)
Fixpoint runExitFns (i : nat) (exitFns : list ExitFn) (s : ContextState)
  : ContextState :=
  match i with
  | 0 => s
  | S i' =>
      match nth_error exitFns i' with
      | Some f => runExitFns i' exitFns (f s)
      | None => s
      end
  end.

(** [array.forEach(callback)], the callback acting on a state and free to
    throw. *)
Fixpoint forEach {A S : Type} (callback : A -> S -> outcome S) (l : list A)
    (s : S) : outcome S :=
  match l with
  | [] => Done s
  | x :: r => s' <- callback x s ;; forEach callback r s'
  end.

(** [traverseChildren], open in the function it calls on every child. *)
Definition traverseChildrenWith
    (visit : node -> TransformContext -> outcome TransformContext)
    (parent : node) (context : TransformContext) : outcome TransformContext :=
  match children parent with
  | None => Thrown TypeError
  | Some l => forEach visit l context
  end.

Fixpoint traverseNode (nd : node) (context : TransformContext) {struct nd}
  : outcome TransformContext :=
  let type := type nd in
  let nodeTransforms := nodeTransforms context in
  let '(s, exitFns) :=
    runNodeTransforms (length nodeTransforms) 0 nodeTransforms nd
                      (state context, []) in
  let context := with_state context s in
  context <-
    match type with
    | INTERPOLATION => Done (helper context TO_DISPLAY_STRING)
    | ROOT | ELEMENT => traverseChildrenWith traverseNode nd context
    | _ => Done context
    end ;;
  let i := length exitFns in
  Done (with_state context (runExitFns i exitFns (state context))).

Definition traverseChildren :=
  traverseChildrenWith traverseNode.

Definition isElement (t : NodeTypes) : bool :=
  match t with ELEMENT => true | _ => false end.

(** Truthiness of a property that is a reference or [undefined]. *)
Definition truthy {A : Type} (v : option A) : bool :=
  match v with Some _ => true | None => false end.

(** Returns the root after the assignment to [root.codegenNode].  Reading
    index 0 of an empty array gives [undefined], and [child.type] then
    throws. *)
Definition createRootCodegen (root : node) (context : TransformContext)
  : outcome node :=
  match children root with
  | None => Thrown TypeError
  | Some children =>
      match nth_error children 0 with
      | None => Thrown TypeError
      | Some child =>
          if isElement (type child) && truthy (codegenNode child) then
            let codegenNode := codegenNode child in
            Done (set_codegenNode root codegenNode)
          else Done (set_codegenNode root (Some (addr child)))
      end
  end.

(** [transform] returns nothing and works by mutating [root]; the result
    here is the root as the call leaves it, with the context the call
    built. *)
Definition transform (root : node) (options : Options) (world : World)
  : outcome (node * TransformContext) :=
  let context := createTransformContext root options world in
  context <- traverseNode root context ;;
  root <- createRootCodegen root context ;;
  match helpers root with
  | None => Thrown TypeError
  | Some l =>
      Done (set_helpers root (Some (l ++ mapKeys (ctx_helpers (state context)))),
            context)
  end.

(** *** The words of the statements about the pipeline *)

(** The usage count the context records for a helper, 0 when the map has
    no entry for it. *)
Definition usageCount (s : ContextState) (name : Helper) : nat :=
  match mapGet (ctx_helpers s) name with Some c => c | None => 0 end.

(** The number of interpolation nodes the walk comes to: the walk enters
    the children of roots and elements only. *)
Fixpoint visitedInterpolations (nd : node) : nat :=
  match nd with
  | mkNode _ INTERPOLATION _ _ _ => 1
  | mkNode _ (ROOT | ELEMENT) (Some l) _ _ =>
      list_sum (map visitedInterpolations l)
  | _ => 0
  end.

(** Every root and element the walk comes to has a [children] array. *)
Fixpoint walkable (nd : node) : bool :=
  match nd with
  | mkNode _ (ROOT | ELEMENT) (Some l) _ _ => forallb walkable l
  | mkNode _ (ROOT | ELEMENT) None _ _ => false
  | _ => true
  end.

(** A plugin that leaves the usage count of [name] alone, when it is
    called and when its cleanup function is. *)
Definition keepsUsage (name : Helper) (t : NodeTransform) : Prop :=
  forall nd s,
    usageCount (fst (t nd s)) name = usageCount s name /\
    forall f, snd (t nd s) = Some f ->
              forall s', usageCount (f s') name = usageCount s' name.

(** A cleanup function that leaves the usage count of [name] alone. *)
Definition quietExit (name : Helper) (f : ExitFn) : Prop :=
  forall s, usageCount (f s) name = usageCount s name.

(** The plugins called on a node in list order, each on the state the one
    before left, with the cleanup functions they returned, in the order of
    the plugins that returned them. *)
Fixpoint enterInOrder (ts : list NodeTransform) (nd : node) (s : ContextState)
  : ContextState * list ExitFn :=
  match ts with
  | [] => (s, [])
  | t :: ts' =>
      let '(s1, onExit) := t nd s in
      let '(s2, cleanups) := enterInOrder ts' nd s1 in
      (s2, match onExit with Some f => f :: cleanups | None => cleanups end)
  end.

(** The cleanup functions called last-registered-first. *)
Definition leaveInReverse (cleanups : list ExitFn) (s : ContextState)
  : ContextState :=
  fold_left (fun s f => f s) (rev cleanups) s.

(** What [traverseNode] does between the plugins and their cleanups. *)
Definition visitByType (nd : node) (context : TransformContext)
  : outcome TransformContext :=
  match type nd with
  | INTERPOLATION => Done (helper context TO_DISPLAY_STRING)
  | ROOT | ELEMENT => traverseChildren nd context
  | _ => Done context
  end.

(** Whenever the walk of [nd] returns, it has added [n] to the usage
    count of [TO_DISPLAY_STRING] and kept the list of plugins. *)
Definition walkCounts (nd : node) (n : nat) : Prop :=
  forall context context' : TransformContext,
    Forall (keepsUsage TO_DISPLAY_STRING) (nodeTransforms context) ->
    traverseNode nd context = Done context' ->
    usageCount (state context') TO_DISPLAY_STRING =
      usageCount (state context) TO_DISPLAY_STRING + n /\
    nodeTransforms context' = nodeTransforms context.

End Pipeline.

End Transform.

(* ================================================================== *)
(** ** The words of the statements about the parser *)

(** [below r1 r2]: [r1] is what a smaller budget gave, [r2] what a larger
    one gives; either the smaller budget ran out, or both agree. *)
Definition below {A : Type} (r1 r2 : outcome A) : Prop :=
  r1 = OutOfFuel \/ r1 = r2.

(** The call [baseParse(content)] comes to an end, by a [return] or by a
    [throw], when some budget is enough for it. *)
Definition baseParseEnds (content : string) : Prop :=
  exists fuel, Parse.baseParse fuel content <> OutOfFuel.

(** Equality of two strings under case-insensitive comparison, as the
    code compares them: their lower-case forms are equal. *)
Definition equalIgnoringCase (a b : string) : Prop :=
  JS.toLowerCase a = JS.toLowerCase b.

Fixpoint allChars (p : ascii -> bool) (s : string) : bool :=
  match s with
  | EmptyString => true
  | String c r => p c && allChars p r
  end.

(** A tag name as the tag pattern reads one: an ASCII letter, then
    tag-name characters only. *)
Definition isTagName (name : string) : bool :=
  match name with
  | EmptyString => false
  | String c r => JS.isAsciiLetter c && allChars Parse.isTagNameChar r
  end.


(* ================================================================== *)
(** ** Sample inputs *)

Module Samples.

Import Ast.
Local Open Scope string_scope.

(** The element [parseTag] builds for the start tag of a div. *)
Definition divElement : Parse.Node :=
  Parse.mkNode ELEMENT "div" PLAIN_ELEMENT None.

(** Helper keys taken as names, with the name the runtime exports. *)
Definition TO_DISPLAY_STRING : string := "toDisplayString".

(** The plugins of the sequencing test keep a shared log; an entry tells
    which plugin was entered or cleaned up, and on which node. *)
Inductive Event : Type :=
| Enter (plugin : nat) (at_node : Transform.loc)
| Leave (plugin : nat) (at_node : Transform.loc).

Definition Log : Type := list Event.

Definition State : Type := @Transform.ContextState string Log.

Definition record (e : Event) (s : State) : State :=
  {| Transform.ctx_helpers := Transform.ctx_helpers s;
     Transform.ctx_world := (Transform.ctx_world s ++ [e])%list |}.

(** A plugin that appends to the log when it is called and returns a
    cleanup function that appends to the log too. *)
Definition loggingPlugin (k : nat) : @Transform.NodeTransform string Log :=
  fun nd s =>
    (record (Enter k (Transform.addr nd)) s,
     Some (record (Leave k (Transform.addr nd)))).


Definition interpolation (a : Transform.loc) : @Transform.node string :=
  Transform.mkNode a INTERPOLATION None None None.

Definition text (a : Transform.loc) : @Transform.node string :=
  Transform.mkNode a TEXT None None None.

Definition element (a : Transform.loc) (l : list (@Transform.node string))
  : @Transform.node string :=
  Transform.mkNode a ELEMENT (Some l) None None.

(** An element to which a plugin has attached the codegen object at
    address [g]. *)
Definition elementWithCodegen (a g : Transform.loc) : @Transform.node string :=
  Transform.mkNode a ELEMENT (Some []) (Some g) None.

Definition rootOf (l : list (@Transform.node string)) : @Transform.node string :=
  Transform.mkNode 0 ROOT (Some l) None (Some []).

(** Three interpolation sites, at depths 1, 2 and 3. *)
Definition nestedRoot : @Transform.node string :=
  rootOf [element 1 [interpolation 2; element 3 [interpolation 4]];
          interpolation 5].

Definition threePlugins : @Transform.Options string Log :=
  {| Transform.opt_nodeTransforms :=
       Some [loggingPlugin 1; loggingPlugin 2; loggingPlugin 3] |}.

Definition noPlugins : @Transform.Options string Log :=
  {| Transform.opt_nodeTransforms := None |}.

End Samples.


(* ================================================================== *)
(** ** compile.ts: the entry point *)

Module Compile.

Local Open Scope outcome_scope.

Section BaseCompile.

Context {Helper : Type}.
Variable Helper_eq_dec : forall a b : Helper, {a = b} + {a <> b}.
Variable TO_DISPLAY_STRING : Helper.
Context {World : Type}.

(** The three plugins and the code generator are named by compile.ts but
    defined in modules that are not among the sources: they are
    parameters here. *)
Variable transformElement : @Transform.NodeTransform Helper World.
Variable transformText : @Transform.NodeTransform Helper World.
Variable transformExpression : @Transform.NodeTransform Helper World.
Variable generate : @Transform.node Helper -> string.

(** The root object [baseParse] returns is the object [transform] is
    called on; [asNode] is that object as compile.ts reads it. *)
Variable asNode : Parse.RootNode -> @Transform.node Helper.

(** [Object.assign(options, { nodeTransforms })]: the key is overwritten. *)
Definition assignNodeTransforms
    (options : @Transform.Options Helper World)
    (l : list (@Transform.NodeTransform Helper World))
  : @Transform.Options Helper World :=
  {| Transform.opt_nodeTransforms := Some l |}.

Definition baseCompile (fuel : nat) (template : string)
    (options : @Transform.Options Helper World) (world : World)
  : outcome string :=
  ast <- Parse.baseParse fuel template ;;
  '(ast, _) <-
     Transform.transform Helper_eq_dec TO_DISPLAY_STRING (asNode ast)
       (assignNodeTransforms options
          [transformElement; transformText; transformExpression])
       world ;;
  Done (generate ast).

End BaseCompile.

End Compile.

(* ================================================================== *)
(** ** More words for the statements *)

(** [rest] is what is left of [s] after some leading characters. *)
Definition suffixOf (rest s : string) : Prop :=
  exists consumed, s = (consumed ++ rest)%string.

(** No branch of the loop body of [parseChildren] applies to a source
    that starts like [s]: it does not open an interpolation, and it is
    not a [<] followed by what the letter tests accept. *)
Definition noBranchApplies (s : string) : bool :=
  negb (Parse.startsWith s "{{") &&
  (if Parse.charIs (JS.charAt s 0) "<" then
     if Parse.charIs (JS.charAt s 1) "/"
     then negb (Parse.testLetter (JS.charAt s 2))
     else negb (Parse.testLetter (JS.charAt s 1))
   else true).

(** What is left of [tail] once its first character is dropped. *)
Definition dropFirst (tail : string) : string :=
  match tail with
  | EmptyString => EmptyString
  | String _ r => r
  end.

(** [tail] is empty or starts with a character that ends a tag name. *)
Definition endsTagName (tail : string) : bool :=
  match tail with
  | EmptyString => true
  | String d _ => negb (Parse.isTagNameChar d)
  end.

Section PipelineWords.

Context {Helper : Type}.

Definition hasFirstChild (root : @Transform.node Helper) : bool :=
  match Transform.children root with
  | Some (_ :: _) => true
  | _ => false
  end.

Definition hasHelpers (root : @Transform.node Helper) : bool :=
  match Transform.helpers root with
  | Some _ => true
  | None => false
  end.

(** The three things [transform] reads without a guard are there. *)
Definition transformable (root : @Transform.node Helper) : bool :=
  Transform.walkable root && hasFirstChild root && hasHelpers root.

End PipelineWords.

Module Sequencing.

Import Ast.

(** The log a walk under the logging plugins [ks] is expected to write:
    for every node the walk comes to, the entries of the plugins in list
    order, then the logs of the children of a root or element in order,
    then the cleanups of the plugins in reverse order. *)
Fixpoint walkLog (ks : list nat) (nd : @Transform.node string)
  : Samples.Log :=
  match nd with
  | Transform.mkNode a t c _ _ =>
      map (fun k => Samples.Enter k a) ks ++
      match t, c with
      | (ROOT | ELEMENT), Some l => flat_map (walkLog ks) l
      | _, _ => []
      end ++
      map (fun k => Samples.Leave k a) (rev ks)
  end.

Definition loggingPlugins (ks : list nat)
  : list (@Transform.NodeTransform string Samples.Log) :=
  map Samples.loggingPlugin ks.

(** What the walk of [nd] under the logging plugins [ks] does: it
    returns, appends [walkLog ks nd] to the log and keeps the plugins. *)
Definition logsWalk (ks : list nat) (nd : @Transform.node string) : Prop :=
  Transform.walkable nd = true ->
  forall context : @Transform.TransformContext string Samples.Log,
    Transform.nodeTransforms context = loggingPlugins ks ->
    exists context',
      Transform.traverseNode string_dec Samples.TO_DISPLAY_STRING nd context =
        Done context' /\
      Transform.ctx_world (Transform.state context') =
        Transform.ctx_world (Transform.state context) ++ walkLog ks nd /\
      Transform.nodeTransforms context' = Transform.nodeTransforms context.

End Sequencing.

(* ================================================================== *)
(** * Strings: slices, prefixes and occurrences *)

Section StringFacts.

Local Open Scope string_scope.

Lemma string_length_app (a b : string) :
  String.length (a ++ b) = String.length a + String.length b.
Proof. induction a; simpl; congruence. Qed.

Lemma string_app_assoc (a b c : string) : (a ++ b) ++ c = a ++ b ++ c.
Proof. induction a; simpl; congruence. Qed.

Lemma substring_0_app (a b : string) :
  substring 0 (String.length a) (a ++ b) = a.
Proof. induction a; simpl; [destruct b; reflexivity | congruence]. Qed.

Lemma substring_skip_app (a b : string) n m :
  substring (String.length a + n) m (a ++ b) = substring n m b.
Proof. induction a; simpl; auto. Qed.

Lemma substring_all (s : string) : substring 0 (String.length s) s = s.
Proof. induction s; simpl; congruence. Qed.

Lemma substring_split (s : string) k :
  s = substring 0 k s ++ substring k (String.length s - k) s.
Proof.
  revert k; induction s as [|c s IH]; intros [|k]; simpl; try reflexivity.
  - now rewrite substring_all.
  - f_equal. apply IH.
Qed.

Lemma substring_0_prefix t s :
  substring 0 (String.length t) s = t -> exists post, s = t ++ post.
Proof.
  revert s. induction t as [|c t IH]; intros s H.
  - now exists s.
  - destruct s as [|d s]; simpl in H; [discriminate|].
    injection H as -> H. destruct (IH _ H) as [post ->]. now exists post.
Qed.

(** An occurrence of [t] at index [k] splits the string around it. *)
Lemma occurrence_split t s k :
  t <> "" -> substring k (String.length t) s = t ->
  exists pre post, s = pre ++ t ++ post /\ String.length pre = k.
Proof.
  intros Ht. revert s. induction k as [|k IH]; intros s H.
  - destruct (substring_0_prefix _ _ H) as [post ->]. now exists "", post.
  - destruct s as [|c s]; simpl in H.
    + destruct t; [congruence | discriminate].
    + destruct (IH _ H) as (pre & post & -> & <-).
      now exists (String c pre), post.
Qed.

Lemma occurrence_at pre t post :
  substring (String.length pre) (String.length t) (pre ++ t ++ post) = t.
Proof.
  rewrite <- (Nat.add_0_r (String.length pre)), substring_skip_app.
  apply substring_0_app.
Qed.

Lemma index_ge n s1 s2 m : index n s1 s2 = Some m -> n <= m.
Proof.
  revert n m.
  induction s2 as [|c s2 IH]; intros [|n] m; simpl; try lia; try discriminate.
  destruct (index n s1 s2) as [k|] eqn:Hk; [|discriminate].
  intros [= <-]. apply IH in Hk. lia.
Qed.

(** [slice] between two indices that are not negative. *)
Lemma slice_nat (s : string) (a b : nat) :
  JS.slice s (Z.of_nat a) (Z.of_nat b) =
  substring (Nat.min a (String.length s))
            (Nat.min b (String.length s) - Nat.min a (String.length s)) s.
Proof.
  unfold JS.slice, JS.relativeIndex.
  destruct (Z.ltb_spec (Z.of_nat a) 0); [lia|].
  destruct (Z.ltb_spec (Z.of_nat b) 0); [lia|].
  f_equal; lia.
Qed.

Lemma sliceFrom_app (a b : string) :
  JS.sliceFrom (a ++ b) (Z.of_nat (String.length a)) = b.
Proof.
  unfold JS.sliceFrom. rewrite slice_nat, string_length_app.
  replace (Nat.min (String.length a) (String.length a + String.length b))
    with (String.length a + 0) by lia.
  rewrite substring_skip_app.
  replace (_ - _) with (String.length b) by lia.
  apply substring_all.
Qed.

Lemma slice_0_app (a b : string) :
  JS.slice (a ++ b) 0 (Z.of_nat (String.length a)) = a.
Proof.
  change 0%Z with (Z.of_nat 0). rewrite slice_nat, string_length_app.
  cbn [Nat.min]. replace (_ - 0) with (String.length a) by lia.
  apply substring_0_app.
Qed.

Lemma length_toLowerCase s :
  String.length (JS.toLowerCase s) = String.length s.
Proof. induction s; simpl; congruence. Qed.

Lemma startsWith_inv s p : JS.startsWith s p = true -> exists r, s = p ++ r.
Proof.
  unfold JS.startsWith. revert s. induction p as [|c p IH]; intros s H.
  - now exists s.
  - destruct s as [|d s]; simpl in H; [discriminate|].
    destruct (ascii_dec c d) as [->|]; [|discriminate].
    destruct (IH _ H) as [r ->]. now exists r.
Qed.

Lemma startsWith_app p r : JS.startsWith (p ++ r) p = true.
Proof.
  unfold JS.startsWith. induction p as [|c p IH]; simpl; [now destruct r|].
  destruct (ascii_dec c c); [exact IH | congruence].
Qed.

End StringFacts.

(* ================================================================== *)
(** * The parser: how its calls end *)

Section ParserRuns.

Import Ast Parse.
Local Open Scope string_scope.
Local Open Scope outcome_scope.

(** One unfolding of each of the two mutually recursive functions. *)
Lemma parseChildren_step fuel context ancestors :
  parseChildren (S fuel) context ancestors =
  if isEnd context ancestors then Done (None, context, ancestors)
  else
    let s := source context in
    if Parse.startsWith s "{{" then
      let '(_, context) := parseInterpolation context in
      parseChildren fuel context ancestors
    else if charIs (JS.charAt s 0) "<" then
      if charIs (JS.charAt s 1) "/" then
        if testLetter (JS.charAt s 2) then
          '(_, context) <- parseTag context End;;
          parseChildren fuel context ancestors
        else parseChildren fuel context ancestors
      else if testLetter (JS.charAt s 1) then
        '(_, context, ancestors) <- parseElement fuel context ancestors;;
        parseChildren fuel context ancestors
      else parseChildren fuel context ancestors
    else parseChildren fuel context ancestors.
Proof. reflexivity. Qed.

Lemma parseElement_step fuel context ancestors :
  parseElement (S fuel) context ancestors =
  '(element, context) <- parseTag context Start;;
  match element with
  | None => Thrown TypeError
  | Some element =>
      '(children, context, ancestors) <-
         parseChildren fuel context (ancestors ++ [element])%list;;
      if startsWithEndTagOpen (source context) (tag element) then
        '(_, context) <- parseTag context End;;
        Done (Some (set_children element children), context,
              removelast ancestors)
      else Thrown (MissingClosingTag (tag element))
  end.
Proof. reflexivity. Qed.

Lemma below_refl {A : Type} (r : outcome A) : below r r.
Proof. now right. Qed.

Lemma below_bind {A B : Type} (m1 m2 : outcome A) (k1 k2 : A -> outcome B) :
  below m1 m2 -> (forall a, below (k1 a) (k2 a)) ->
  below (bind m1 k1) (bind m2 k2).
Proof.
  intros [-> | ->] Hk; [now left|].
  destruct m2 as [a | e |]; simpl; [apply Hk | now right | now left].
Qed.

Ltac below_cases :=
  repeat match goal with
  | |- below (if ?b then _ else _) (if ?b then _ else _) => destruct b
  | |- below (let '(_, _) := ?p in _) _ => destruct p
  | |- below (match ?o with Some _ => _ | None => _ end) _ => destruct o
  | |- below (bind _ _) (bind _ _) => apply below_bind; [|intros]
  | |- below ?r ?r => apply below_refl
  end.

(** A larger budget never changes an answer already reached. *)
Lemma parse_budget_succ fuel :
  (forall context ancestors,
      below (parseChildren fuel context ancestors)
            (parseChildren (S fuel) context ancestors)) /\
  (forall context ancestors,
      below (parseElement fuel context ancestors)
            (parseElement (S fuel) context ancestors)).
Proof.
  induction fuel as [|fuel [IHc IHe]].
  - split; intros; now left.
  - split; intros context ancestors.
    + rewrite (parseChildren_step (S fuel)), (parseChildren_step fuel).
      cbv zeta. below_cases; auto.
    + rewrite (parseElement_step (S fuel)), (parseElement_step fuel).
      below_cases; auto.
Qed.

Lemma parseChildren_budget_le fuel fuel' context ancestors :
  fuel <= fuel' ->
  below (parseChildren fuel context ancestors)
        (parseChildren fuel' context ancestors).
Proof.
  induction 1 as [|m _ IH]; [apply below_refl|].
  destruct IH as [-> | ->]; [now left|].
  apply parse_budget_succ.
Qed.

Lemma baseParse_budget_le fuel fuel' content :
  fuel <= fuel' -> below (baseParse fuel content) (baseParse fuel' content).
Proof.
  intros Hle. unfold baseParse.
  apply below_bind; [now apply parseChildren_budget_le | intros; apply below_refl].
Qed.

(** With no characters left, [isEnd] still answers no and no branch of
    the loop body consumes anything: the loop spins for ever, whatever
    the ancestors are. *)
Lemma parseChildren_exhausted fuel ancestors :
  parseChildren fuel (Parse.mkContext "") ancestors = OutOfFuel.
Proof.
  induction fuel as [|fuel IH]; [reflexivity|].
  rewrite parseChildren_step. exact IH.
Qed.

Lemma removelast_snoc {A : Type} (l : list A) (x : A) :
  removelast (l ++ [x]) = l.
Proof.
  induction l as [|y l IH]; [reflexivity|].
  simpl. rewrite IH. destruct l; reflexivity.
Qed.

(** When [parseChildren] returns, it returns [undefined], the loop
    condition has just failed, and the pushes and pops on [ancestors]
    have cancelled; [parseElement] too leaves [ancestors] as it was. *)
Lemma parse_returns fuel :
  (forall context ancestors v context' ancestors',
      parseChildren fuel context ancestors = Done (v, context', ancestors') ->
      v = None /\ ancestors' = ancestors /\ isEnd context' ancestors = true) /\
  (forall context ancestors v context' ancestors',
      parseElement fuel context ancestors = Done (v, context', ancestors') ->
      ancestors' = ancestors).
Proof.
  induction fuel as [|fuel [IHc IHe]]; [split; discriminate|].
  split; intros context ancestors v context' ancestors'.
  - rewrite parseChildren_step. cbv zeta.
    destruct (isEnd context ancestors) eqn:Hend.
    { intros [= <- <- <-]. auto. }
    destruct (Parse.startsWith _ _).
    { destruct (parseInterpolation context). apply IHc. }
    destruct (charIs _ _); [|apply IHc].
    destruct (charIs _ _).
    + destruct (testLetter _); [|apply IHc].
      destruct (parseTag context End) as [[? ?] | |]; simpl; try discriminate.
      apply IHc.
    + destruct (testLetter _); [|apply IHc].
      destruct (parseElement fuel context ancestors) as [[[? c1] a1] | |] eqn:He;
        simpl; try discriminate.
      apply IHe in He. subst a1. apply IHc.
  - rewrite parseElement_step.
    destruct (parseTag context Start) as [[[element|] c1] | |]; simpl;
      try discriminate.
    destruct (parseChildren fuel c1 (ancestors ++ [element])%list)
      as [[[ch c2] a2] | |] eqn:Hc; simpl; try discriminate.
    apply IHc in Hc. destruct Hc as (_ & -> & _).
    destruct (startsWithEndTagOpen _ _); [|discriminate].
    destruct (parseTag c2 End) as [[? c3] | |]; simpl; try discriminate.
    intros [= _ _ <-]. apply removelast_snoc.
Qed.

(** The value [parseChildren] hands back is never an array. *)
Lemma parseChildren_result_undefined fuel context ancestors v context' ancestors' :
  parseChildren fuel context ancestors = Done (v, context', ancestors') ->
  v = None.
Proof. intros H. now apply (proj1 (parse_returns fuel)) in H. Qed.

(** With no ancestors [isEnd] cannot answer yes, so the loop of the
    outermost [parseChildren] has no exit: [baseParse] returns no root,
    for any template and any budget. *)
Lemma baseParse_never_returns fuel content root :
  baseParse fuel content <> Done root.
Proof.
  unfold baseParse.
  destruct (parseChildren fuel (createParserContext content) [])
    as [[[v c] a] | |] eqn:H; simpl; try discriminate.
  apply (proj1 (parse_returns fuel)) in H. destruct H as (_ & _ & H).
  unfold isEnd in H. destruct (JS.startsWith _ _); discriminate.
Qed.

(** The empty template is one on which the call never ends at all. *)
Lemma baseParse_empty_template_has_no_end : ~ baseParseEnds "".
Proof.
  intros [fuel H]. apply H. unfold baseParse, createParserContext.
  now rewrite parseChildren_exhausted.
Qed.

(** C1 (the code departs from the claim).  The claim is that [baseParse]
    terminates on every template because [isEnd] reports the end of the
    input.  In the code [isEnd] has no such case: on the empty template
    the loop of [parseChildren] never stops, whatever the budget. *)
Theorem baseParse_empty_template_runs_forever :
  forall fuel, baseParse fuel "" = OutOfFuel.
Proof.
  intros fuel. unfold baseParse, createParserContext.
  now rewrite parseChildren_exhausted.
Qed.

(** C2 (the code departs from the claim).  The claim is that
    [parseChildren] returns an empty sequence.  In the code the function
    ends without a [return] statement: where it returns, as on a closing
    tag of an open element, the value is [undefined] and not an array. *)
Theorem parseChildren_returns_undefined_not_array :
  forall fuel,
    parseChildren (S fuel) (Parse.mkContext "</div>") [Samples.divElement] =
    Done (None, Parse.mkContext "</div>", [Samples.divElement]).
Proof. intros fuel. reflexivity. Qed.

(** C4 (the code departs from the claim).  The claim is that a lone
    opening tag fails with the missing-closing-tag error naming "div".  In
    the code the children loop of the element never stops once the input
    is used up, so the check that throws is never reached. *)
Theorem baseParse_unclosed_div_runs_forever :
  forall fuel, baseParse fuel "<div>" = OutOfFuel.
Proof.
  intros [|[|fuel]]; try reflexivity.
  unfold baseParse, createParserContext.
  rewrite parseChildren_step.
  change (isEnd (Parse.mkContext "<div>") []) with false.
  cbv iota zeta.
  change (Parse.startsWith (source (Parse.mkContext "<div>")) "{{") with false.
  change (charIs (JS.charAt (source (Parse.mkContext "<div>")) 0) "<") with true.
  change (charIs (JS.charAt (source (Parse.mkContext "<div>")) 1) "/") with false.
  change (testLetter (JS.charAt (source (Parse.mkContext "<div>")) 1)) with true.
  cbv iota.
  rewrite parseElement_step.
  change (parseTag (Parse.mkContext "<div>") Start)
    with (Done (Some Samples.divElement, Parse.mkContext "")).
  cbn [bind]. now rewrite parseChildren_exhausted.
Qed.

(** The error of [parseElement] is reached when the closing tag of an
    outer element arrives while an inner one is open. *)
Example baseParse_unclosed_inner_element :
  baseParse 5 "<div><span></div>" = Thrown (MissingClosingTag "span").
Proof. reflexivity. Qed.

(** A template that is closed properly fares no better than the empty
    one: after the element the outermost loop spins on the empty rest. *)
Example baseParse_closed_div_runs_forever :
  forall fuel, baseParse fuel "<div></div>" = OutOfFuel.
Proof.
  intros [|[|[|fuel]]]; try reflexivity.
  unfold baseParse, createParserContext.
  rewrite parseChildren_step.
  change (isEnd (Parse.mkContext "<div></div>") []) with false.
  cbv iota zeta.
  change (Parse.startsWith (source (Parse.mkContext "<div></div>")) "{{")
    with false.
  change (charIs (JS.charAt (source (Parse.mkContext "<div></div>")) 0) "<")
    with true.
  change (charIs (JS.charAt (source (Parse.mkContext "<div></div>")) 1) "/")
    with false.
  change (testLetter (JS.charAt (source (Parse.mkContext "<div></div>")) 1))
    with true.
  cbv iota.
  change (parseElement (S (S fuel)) (Parse.mkContext "<div></div>") [])
    with (Done (Some (set_children Samples.divElement None),
                Parse.mkContext "", @nil Node)).
  cbn [bind]. now rewrite parseChildren_exhausted.
Qed.

(** A lone [<]: the letter test is passed by [undefined], and [parseTag]
    then reads a property of [null]. *)
Example baseParse_lone_angle_bracket :
  baseParse 2 "<" = Thrown TypeError.
Proof. reflexivity. Qed.

End ParserRuns.

(* ================================================================== *)
(** * The parser: closing tags *)

Section ClosingTags.

Import Ast Parse.
Local Open Scope string_scope.
Local Open Scope outcome_scope.

Lemma startsWithEndTagOpen_intro name rest t :
  String.length name = String.length t ->
  equalIgnoringCase name t ->
  startsWithEndTagOpen ("</" ++ name ++ rest) t = true.
Proof.
  intros Hlen Heq. unfold startsWithEndTagOpen, Parse.startsWith.
  rewrite startsWith_app. cbn [andb].
  apply String.eqb_eq. rewrite <- Heq. f_equal.
  change 2%Z with (Z.of_nat 2). rewrite <- Nat2Z.inj_add, slice_nat.
  rewrite !string_length_app. simpl String.length.
  replace (Nat.min 2 _) with (String.length "</" + 0) by (simpl; lia).
  replace (Nat.min _ _ - _) with (String.length name) by (simpl; lia).
  rewrite substring_skip_app. apply substring_0_app.
Qed.

Lemma startsWithEndTagOpen_elim s t :
  startsWithEndTagOpen s t = true ->
  exists name rest,
    s = "</" ++ name ++ rest /\ String.length name = String.length t /\
    equalIgnoringCase name t.
Proof.
  unfold startsWithEndTagOpen, Parse.startsWith.
  intros H. apply andb_true_iff in H. destruct H as [Hp He].
  apply startsWith_inv in Hp. destruct Hp as [r ->].
  apply String.eqb_eq in He.
  change 2%Z with (Z.of_nat 2) in He. rewrite <- Nat2Z.inj_add, slice_nat in He.
  rewrite string_length_app in He. simpl String.length in He.
  replace (Nat.min 2 _) with (String.length "</" + 0) in He by (simpl; lia).
  rewrite substring_skip_app in He.
  set (m := _ - _) in He.
  exists (substring 0 m r), (substring m (String.length r - m) r).
  split; [|split].
  - simpl. do 2 f_equal. apply substring_split.
  - rewrite <- (length_toLowerCase (substring 0 m r)), He.
    apply length_toLowerCase.
  - exact He.
Qed.

(** C9.  For every source [s] and tag name [t], [startsWithEndTagOpen]
    answers [true] exactly when [s] starts with the two characters of a
    closing-tag opener and the next [t.length] characters equal [t] under
    case-insensitive comparison. *)
Theorem startsWithEndTagOpen_iff s t :
  startsWithEndTagOpen s t = true <->
  exists name rest,
    s = "</" ++ name ++ rest /\ String.length name = String.length t /\
    equalIgnoringCase name t.
Proof.
  split.
  - apply startsWithEndTagOpen_elim.
  - intros (name & rest & -> & Hlen & Heq).
    now apply startsWithEndTagOpen_intro.
Qed.

(** The fourth testable property of the parser, at the level of one
    element: an upper-case start tag is closed by a lower-case end tag. *)
Example parseElement_mixed_case :
  parseElement 2 (Parse.mkContext "<DIV></div>") [] =
  Done (Some (Parse.mkNode ELEMENT "DIV" PLAIN_ELEMENT None),
        Parse.mkContext "", []).
Proof. reflexivity. Qed.

Lemma takeWhile_stop p r d rest :
  allChars p r = true -> p d = false ->
  takeWhile p (r ++ String d rest) = r.
Proof.
  intros Hr Hd. induction r as [|c r IH]; simpl in *.
  - now rewrite Hd.
  - apply andb_true_iff in Hr. destruct Hr as [-> Hr]. now rewrite IH.
Qed.

Lemma matchTagName_stop name d rest :
  isTagName name = true -> isTagNameChar d = false ->
  matchTagName (name ++ String d rest) = Some name.
Proof.
  destruct name as [|c r]; [discriminate|]. simpl.
  intros H Hd. apply andb_true_iff in H. destruct H as [-> Hr].
  now rewrite takeWhile_stop.
Qed.

Lemma execTagRegex_end name d rest :
  isTagName name = true -> isTagNameChar d = false ->
  execTagRegex ("</" ++ name ++ String d rest) = Some ("</" ++ name, name).
Proof.
  intros Hn Hd. cbn [execTagRegex append].
  now rewrite matchTagName_stop.
Qed.

Lemma execTagRegex_start name d rest :
  isTagName name = true -> isTagNameChar d = false ->
  execTagRegex ("<" ++ name ++ String d rest) = Some ("<" ++ name, name).
Proof.
  intros Hn Hd. cbn [execTagRegex append].
  destruct name as [|c r]; [discriminate|].
  assert (Hc : JS.isAsciiLetter c = true).
  { simpl in Hn. now apply andb_true_iff in Hn. }
  pose proof (matchTagName_stop (String c r) d rest Hn Hd) as Hm.
  cbn [append] in *.
  destruct c as [[] [] [] [] [] [] [] []]; try discriminate Hc; now rewrite Hm.
Qed.

(** The two [advanceBy] calls of [parseTag], past the match and past the
    character after it. *)
Lemma advance_past_tag (opener name rest : string) :
  advanceBy
    (advanceBy (Parse.mkContext (opener ++ name ++ String ">" rest))
               (Z.of_nat (String.length (opener ++ name)))) 1 =
  Parse.mkContext rest.
Proof.
  unfold advanceBy. cbn [source]. f_equal.
  rewrite <- string_app_assoc, sliceFrom_app.
  apply (sliceFrom_app ">" rest).
Qed.

Lemma parseTag_end name rest :
  isTagName name = true ->
  parseTag (Parse.mkContext ("</" ++ name ++ String ">" rest)) End =
  Done (None, Parse.mkContext rest).
Proof.
  intros Hn. unfold parseTag. cbn [source].
  rewrite execTagRegex_end by (auto; reflexivity).
  now rewrite advance_past_tag.
Qed.

Lemma parseTag_start name rest :
  isTagName name = true ->
  parseTag (Parse.mkContext ("<" ++ name ++ String ">" rest)) Start =
  Done (Some (Parse.mkNode ELEMENT name PLAIN_ELEMENT None),
        Parse.mkContext rest).
Proof.
  intros Hn. unfold parseTag. cbn [source].
  rewrite execTagRegex_start by (auto; reflexivity).
  now rewrite advance_past_tag.
Qed.

Lemma isEndLoop_found s ancestors n i a :
  n <= List.length ancestors ->
  i < n -> nth_error ancestors i = Some a ->
  startsWithEndTagOpen s (tag a) = true ->
  isEndLoop s ancestors n = true.
Proof.
  intros Hn Hi Ha Hs. induction n as [|n IH]; [lia|].
  simpl. destruct (Nat.eq_dec i n) as [->|Hne].
  - now rewrite Ha, Hs.
  - destruct (nth_error ancestors n) as [b|] eqn:Hb.
    + destruct (startsWithEndTagOpen s (tag b)); [reflexivity|].
      apply IH; lia.
    + apply nth_error_None in Hb. lia.
Qed.

(** [isEnd] answers yes as soon as one ancestor, at any depth, matches. *)
Lemma isEnd_ancestor s ancestors a :
  In a ancestors ->
  startsWithEndTagOpen s (tag a) = true ->
  isEnd (Parse.mkContext s) ancestors = true.
Proof.
  intros Hin Hs. unfold isEnd. cbn [source].
  assert (Hp : JS.startsWith s "</" = true).
  { unfold startsWithEndTagOpen in Hs. now apply andb_true_iff in Hs. }
  rewrite Hp.
  apply In_nth_error in Hin. destruct Hin as [i Hi].
  apply (isEndLoop_found s ancestors _ i a); auto.
  apply nth_error_Some. congruence.
Qed.

(** C10.  Closing-tag matching compares a prefix only.  Let an element
    with tag [t] be open, and let the rest of the source be a closing tag
    whose name [t ++ x] has [t] as a prefix.  Then the ancestor check of
    [isEnd] passes, the closing-tag check of [parseElement] passes, and
    [parseTag] consumes the whole longer closing tag; an element opened
    with [t] is therefore closed by it without error. *)
Theorem longer_closing_tag_accepted t x rest ancestors a fuel :
    In a ancestors -> tag a = t ->
    isTagName t = true -> isTagName (t ++ x) = true ->
    let s := "</" ++ (t ++ x) ++ String ">" rest in
    isEnd (Parse.mkContext s) ancestors = true /\
    startsWithEndTagOpen s t = true /\
    parseTag (Parse.mkContext s) End = Done (None, Parse.mkContext rest) /\
    parseElement (S (S fuel)) (Parse.mkContext ("<" ++ t ++ String ">" s))
                 ancestors =
      Done (Some (Parse.mkNode ELEMENT t PLAIN_ELEMENT None),
            Parse.mkContext rest, ancestors).
Proof.
  intros Hin Htag Ht Htx s.
  assert (Hs : startsWithEndTagOpen s t = true).
  { unfold s. rewrite string_app_assoc.
    apply startsWithEndTagOpen_intro; reflexivity. }
  repeat split.
  - apply (isEnd_ancestor s ancestors a); congruence.
  - exact Hs.
  - now apply parseTag_end.
  - rewrite parseElement_step, parseTag_start by assumption.
    cbn [bind]. rewrite parseChildren_step.
    rewrite (isEnd_ancestor s _ (Parse.mkNode ELEMENT t PLAIN_ELEMENT None)).
    + cbn [bind source tag]. rewrite Hs. unfold s at 1.
      rewrite parseTag_end by assumption. cbn [bind].
      now rewrite removelast_snoc.
    + apply in_or_app. right. now left.
    + exact Hs.
Qed.

End ClosingTags.

(** The closing tag of a [divx] element closes an open [div]. *)
Lemma longer_closing_tag_accepted_witness :
  In Samples.divElement [Samples.divElement] /\
  isTagName "div" = true /\ isTagName "divx" = true /\
  Parse.isEnd (Parse.mkContext "</divx>") [Samples.divElement] = true /\
  Parse.startsWithEndTagOpen "</divx>" "div" = true /\
  Parse.parseTag (Parse.mkContext "</divx>") Parse.End =
    Done (None, Parse.mkContext "") /\
  Parse.parseElement 2 (Parse.mkContext "<div></divx>") [Samples.divElement] =
    Done (Some Samples.divElement, Parse.mkContext "", [Samples.divElement]).
Proof.
  split; [now left|]. split; [reflexivity|]. split; [reflexivity|].
  apply (longer_closing_tag_accepted "div" "x" "" [Samples.divElement]
           Samples.divElement 0);
    [now left | reflexivity | reflexivity | reflexivity].
Defined.

(* ================================================================== *)
(** * The parser: interpolation sites *)

Section Interpolation.

Import Ast Parse.
Local Open Scope string_scope.

(** C3.  Let the source begin with the opener and contain the closer.
    Then the source is the opener, a raw span, the first closer and a
    rest; the closer index is the opener length plus the length of the
    raw span; [parseInterpolation] moves the cursor past the opener, then
    past the raw span (of length closer index minus opener length), then
    past the closer, which leaves the rest; and it returns no node. *)
Theorem parseInterpolation_consumes_site s :
  Parse.startsWith s "{{" = true ->
  (exists pre post, s = pre ++ "}}" ++ post) ->
  exists raw rest,
    s = "{{" ++ raw ++ "}}" ++ rest /\
    JS.indexOf s "}}" 2 = (2 + Z.of_nat (String.length raw))%Z /\
    advanceBy (Parse.mkContext s) 2 = Parse.mkContext (raw ++ "}}" ++ rest) /\
    parseTextData (Parse.mkContext (raw ++ "}}" ++ rest))
                  (JS.indexOf s "}}" 2 - 2) =
      (raw, Parse.mkContext ("}}" ++ rest)) /\
    advanceBy (Parse.mkContext ("}}" ++ rest)) 2 = Parse.mkContext rest /\
    parseInterpolation (Parse.mkContext s) = (None, Parse.mkContext rest).
Proof.
  intros Hopen (pre & post & Hs).
  apply startsWith_inv in Hopen. destruct Hopen as [s1 Hs1].
  assert (Hpre : 2 <= String.length pre).
  { destruct pre as [|a [|b pre]]; simpl; try lia; subst s; discriminate. }
  destruct (index 2 "}}" s) as [k|] eqn:Hk.
  2:{ exfalso. apply (index_correct3 2 (String.length pre)) in Hk; auto.
      - apply Hk. rewrite Hs. apply (occurrence_at pre "}}" post).
      - discriminate. }
  pose proof (index_ge _ _ _ _ Hk) as Hk2.
  pose proof (index_correct1 _ _ _ _ Hk) as Hocc.
  apply occurrence_split in Hocc; [|discriminate].
  destruct Hocc as (pre' & rest & Hs' & Hlen).
  destruct pre' as [|a [|b raw]]; simpl in Hlen; try lia.
  assert (a = "{"%char /\ b = "{"%char) as [-> ->].
  { rewrite Hs1 in Hs'. now injection Hs' as <- <- _. }
  exists raw, rest.
  assert (Hidx : JS.indexOf s "}}" 2 = (2 + Z.of_nat (String.length raw))%Z).
  { unfold JS.indexOf.
    replace (Z.to_nat _) with 2.
    2:{ rewrite Hs'. simpl String.length. lia. }
    rewrite Hk. lia. }
  assert (Hadv : advanceBy (Parse.mkContext s) 2 =
                 Parse.mkContext (raw ++ "}}" ++ rest)).
  { unfold advanceBy. cbn [source]. f_equal. rewrite Hs'.
    apply (sliceFrom_app "{{"). }
  assert (Hraw : JS.slice (raw ++ "}}" ++ rest) 0
                   (JS.indexOf s "}}" 2 - 2) = raw).
  { rewrite Hidx.
    replace (2 + Z.of_nat (String.length raw) - 2)%Z
      with (Z.of_nat (String.length raw)) by lia.
    apply slice_0_app. }
  assert (Hskip : JS.sliceFrom (raw ++ "}}" ++ rest)
                    (JS.indexOf s "}}" 2 - 2) = "}}" ++ rest).
  { rewrite Hidx.
    replace (2 + Z.of_nat (String.length raw) - 2)%Z
      with (Z.of_nat (String.length raw)) by lia.
    apply sliceFrom_app. }
  assert (Hclose : advanceBy (Parse.mkContext ("}}" ++ rest)) 2 =
                   Parse.mkContext rest).
  { unfold advanceBy. cbn [source]. f_equal. apply (sliceFrom_app "}}"). }
  repeat split; auto.
  - unfold parseTextData, advanceBy. cbn [source]. now rewrite Hraw, Hskip.
  - unfold parseInterpolation. cbn [String.length].
    change (Z.of_nat 2) with 2%Z. rewrite Hadv. cbn [source].
    rewrite Hraw. unfold parseTextData, advanceBy. cbn [source].
    rewrite sliceFrom_app. f_equal. f_equal.
    apply (sliceFrom_app "}}").
Qed.

End Interpolation.

(** The interpolation site of the fifth testable property, followed by
    more text: the site is consumed whole and nothing is returned. *)
Lemma parseInterpolation_consumes_site_witness :
  Parse.startsWith "{{ message }}tail" "{{" = true /\
  (exists pre post, "{{ message }}tail" = pre ++ "}}" ++ post)%string /\
  exists raw rest,
    ("{{ message }}tail" = "{{" ++ raw ++ "}}" ++ rest)%string /\
    JS.indexOf "{{ message }}tail" "}}" 2 =
      (2 + Z.of_nat (String.length raw))%Z /\
    Parse.advanceBy (Parse.mkContext "{{ message }}tail") 2 =
      Parse.mkContext (raw ++ "}}" ++ rest) /\
    Parse.parseTextData (Parse.mkContext (raw ++ "}}" ++ rest))
                        (JS.indexOf "{{ message }}tail" "}}" 2 - 2) =
      (raw, Parse.mkContext ("}}" ++ rest)) /\
    Parse.advanceBy (Parse.mkContext ("}}" ++ rest)) 2 = Parse.mkContext rest /\
    Parse.parseInterpolation (Parse.mkContext "{{ message }}tail") =
      (None, Parse.mkContext rest).
Proof.
  split; [reflexivity|].
  split; [exists "{{ message "%string, "tail"%string; reflexivity|].
  apply (parseInterpolation_consumes_site "{{ message }}tail");
    [reflexivity | exists "{{ message "%string, "tail"%string; reflexivity].
Defined.

(** What the theorem says on that input, computed. *)
Example parseInterpolation_message :
  Parse.parseInterpolation (Parse.mkContext "{{ message }}tail") =
  (None, Parse.mkContext "tail").
Proof. reflexivity. Qed.

(* ================================================================== *)
(** * The transform pipeline *)

Section PipelineFacts.

Import Ast Transform.
Local Open Scope outcome_scope.

Context {Helper : Type}.
Variable Helper_eq_dec : forall a b : Helper, {a = b} + {a <> b}.
Variable TO_DISPLAY_STRING : Helper.
Context {World : Type}.

Local Abbreviation node := (@Transform.node Helper).
Local Abbreviation ContextState := (@Transform.ContextState Helper World).
Local Abbreviation TransformContext :=
  (@Transform.TransformContext Helper World).
Local Abbreviation NodeTransform := (@Transform.NodeTransform Helper World).
Local Abbreviation ExitFn := (@Transform.ExitFn Helper World).
Local Abbreviation Options := (@Transform.Options Helper World).
Local Abbreviation traverseNode :=
  (Transform.traverseNode Helper_eq_dec TO_DISPLAY_STRING).
Local Abbreviation visitByType :=
  (Transform.visitByType Helper_eq_dec TO_DISPLAY_STRING).
Local Abbreviation transform :=
  (Transform.transform Helper_eq_dec TO_DISPLAY_STRING).
Local Abbreviation helper := (Transform.helper Helper_eq_dec).
Local Abbreviation usageCount := (Transform.usageCount Helper_eq_dec).
Local Abbreviation keepsUsage := (Transform.keepsUsage Helper_eq_dec).
Local Abbreviation quietExit := (Transform.quietExit Helper_eq_dec).
Local Abbreviation walkCounts :=
  (@Transform.walkCounts Helper Helper_eq_dec TO_DISPLAY_STRING World).

(** Induction on a tree of nodes: the property holds of a node when it
    holds of all its children. *)
Lemma node_induction (P : node -> Prop) :
  (forall a t c g h,
      match c with Some l => Forall P l | None => True end ->
      P (mkNode a t c g h)) ->
  forall nd, P nd.
Proof.
  intros step. fix IH 1. intros [a t c g h]. apply step.
  destruct c as [l|]; [|exact I].
  induction l as [|x l IHl]; constructor; [apply IH | exact IHl].
Qed.

Lemma traverseNode_unfold (nd : node) (context : TransformContext) :
  traverseNode nd context =
  let '(s, exitFns) :=
    runNodeTransforms (length (nodeTransforms context)) 0
                      (nodeTransforms context) nd (state context, []) in
  context' <- visitByType nd (with_state context s) ;;
  Done (with_state context'
          (runExitFns (length exitFns) exitFns (state context'))).
Proof. destruct nd; reflexivity. Qed.

(** The indexed loop over the plugins, started anywhere in the list, does
    what a pass over the rest of the list does. *)
Lemma runNodeTransforms_from (done todo : list NodeTransform) nd s acc :
  runNodeTransforms (length todo) (length done) (done ++ todo) nd (s, acc) =
  let '(s', cleanups) := enterInOrder todo nd s in (s', acc ++ cleanups).
Proof.
  revert done s acc. induction todo as [|t todo IH]; intros done s acc.
  - simpl. now rewrite app_nil_r.
  - cbn [length runNodeTransforms enterInOrder].
    rewrite nth_error_app2, Nat.sub_diag by lia. cbn [nth_error].
    destruct (t nd s) as [s1 onExit].
    replace (S (length done)) with (length (done ++ [t]))
      by (rewrite length_app; simpl; lia).
    replace (done ++ t :: todo) with ((done ++ [t]) ++ todo)
      by (now rewrite <- app_assoc).
    rewrite IH. destruct (enterInOrder todo nd s1) as [s2 cleanups].
    destruct onExit; [now rewrite <- app_assoc | reflexivity].
Qed.

Lemma runNodeTransforms_all (ts : list NodeTransform) nd s :
  runNodeTransforms (length ts) 0 ts nd (s, []) = enterInOrder ts nd s.
Proof.
  pose proof (runNodeTransforms_from [] ts nd s []) as H.
  cbn [length app] in H. rewrite H.
  now destruct (enterInOrder ts nd s).
Qed.

(** The countdown loop over the first [length l] cleanup functions calls
    them from the last to the first. *)
Lemma runExitFns_from (l rest : list ExitFn) s :
  runExitFns (length l) (l ++ rest) s = leaveInReverse l s.
Proof.
  revert rest s. induction l as [|f l IH] using rev_ind; intros rest s.
  - reflexivity.
  - rewrite length_app, Nat.add_1_r. cbn [runExitFns].
    rewrite <- app_assoc, nth_error_app2, Nat.sub_diag by lia.
    cbn [nth_error app]. rewrite IH.
    unfold leaveInReverse. now rewrite rev_app_distr.
Qed.

Lemma runExitFns_all (l : list ExitFn) s :
  runExitFns (length l) l s = leaveInReverse l s.
Proof. rewrite <- (app_nil_r l) at 2. apply runExitFns_from. Qed.

(** C7.  For every node, [traverseNode] calls the registered plugins on
    the node in list order, then does the work that depends on the kind
    of the node, and afterwards calls the cleanup functions the plugins
    returned in reverse registration order, the last registered first. *)
Theorem traverseNode_plugin_order (nd : node) (context : TransformContext) :
  traverseNode nd context =
  let '(s, cleanups) :=
    enterInOrder (nodeTransforms context) nd (state context) in
  context' <- visitByType nd (with_state context s) ;;
  Done (with_state context' (leaveInReverse cleanups (state context'))).
Proof.
  rewrite traverseNode_unfold, runNodeTransforms_all.
  destruct (enterInOrder _ _ _) as [s cleanups].
  destruct (visitByType _ _); simpl; [|reflexivity..].
  now rewrite runExitFns_all.
Qed.

Lemma mapGet_mapSet (m : HelperMap) (name : Helper) (v : nat) :
  mapGet Helper_eq_dec (mapSet Helper_eq_dec m name v) name = Some v.
Proof.
  induction m as [|[k w] m IH]; simpl.
  - destruct (Helper_eq_dec name name); congruence.
  - destruct (Helper_eq_dec k name) as [e|ne]; simpl.
    + destruct (Helper_eq_dec k name); congruence.
    + destruct (Helper_eq_dec k name); [contradiction | exact IH].
Qed.

(** [helper(name)] adds one to the count of [name], from 0 when the map
    had no entry. *)
Lemma usageCount_helper (context : TransformContext) (name : Helper) :
  usageCount (state (helper context name)) name =
  usageCount (state context) name + 1.
Proof.
  unfold Transform.usageCount, Transform.helper. simpl.
  now rewrite mapGet_mapSet.
Qed.

Lemma enterInOrder_keeps name (ts : list NodeTransform) nd s :
  Forall (keepsUsage name) ts ->
  usageCount (fst (enterInOrder ts nd s)) name = usageCount s name /\
  Forall (quietExit name) (snd (enterInOrder ts nd s)).
Proof.
  intros Hts. revert s. induction Hts as [|t ts Ht _ IH]; intros s.
  - simpl. auto.
  - cbn [enterInOrder]. destruct (Ht nd s) as [H1 H2].
    destruct (t nd s) as [s1 onExit]. simpl in H1, H2.
    destruct (IH s1) as [H3 H4].
    destruct (enterInOrder ts nd s1) as [s2 cleanups]. simpl in *.
    split; [congruence|].
    destruct onExit as [f|]; [|exact H4].
    constructor; [|exact H4]. intros s'. now apply H2.
Qed.

Lemma leaveInReverse_keeps name (cleanups : list ExitFn) s :
  Forall (quietExit name) cleanups ->
  usageCount (leaveInReverse cleanups s) name = usageCount s name.
Proof.
  intros H. apply Forall_rev in H. unfold leaveInReverse.
  revert s. induction H as [|f l Hf _ IH]; intros s; [reflexivity|].
  simpl. rewrite IH. apply Hf.
Qed.

Lemma forEach_counts (l : list node) :
  Forall (fun nd => walkCounts nd (visitedInterpolations nd)) l ->
  forall context context' : TransformContext,
    Forall (keepsUsage TO_DISPLAY_STRING) (nodeTransforms context) ->
    forEach traverseNode l context = Done context' ->
    usageCount (state context') TO_DISPLAY_STRING =
      usageCount (state context) TO_DISPLAY_STRING +
      list_sum (map visitedInterpolations l) /\
    nodeTransforms context' = nodeTransforms context.
Proof.
  induction 1 as [|nd l Hnd _ IH]; intros context context' Hts.
  - intros [= <-]. simpl. auto.
  - cbn [forEach].
    destruct (traverseNode nd context) as [c1| |] eqn:E1; cbn [bind];
      try discriminate.
    intros E2. destruct (Hnd _ _ Hts E1) as [U1 T1].
    destruct (IH c1 context') as [U2 T2]; [now rewrite T1 | exact E2 |].
    change (list_sum (map visitedInterpolations (nd :: l)))
      with (visitedInterpolations nd + list_sum (map visitedInterpolations l)).
    split; [lia | congruence].
Qed.

(** The walk adds one to the count for every interpolation node it comes
    to, at any depth, provided the plugins leave that count alone. *)
Lemma traverseNode_counts (nd : node) :
  walkCounts nd (visitedInterpolations nd).
Proof.
  induction nd as [a t c g h IH] using node_induction.
  intros context context' Hts.
  rewrite traverseNode_unfold, runNodeTransforms_all.
  destruct (enterInOrder_keeps TO_DISPLAY_STRING _ (mkNode a t c g h)
              (state context) Hts) as [Hs Hq].
  destruct (enterInOrder _ _ _) as [s cleanups]. cbn [fst snd] in Hs, Hq.
  destruct (visitByType (mkNode a t c g h) (with_state context s))
    as [c1| |] eqn:E; cbn [bind]; try discriminate.
  intros [= <-]. cbn [state nodeTransforms with_state].
  rewrite runExitFns_all, leaveInReverse_keeps by assumption.
  rewrite <- Hs.
  unfold Transform.visitByType, Transform.traverseChildren,
    Transform.traverseChildrenWith in E.
  cbn [type children] in E.
  destruct t; cbn [visitedInterpolations].
  - destruct c as [l|]; [|discriminate].
    apply (forEach_counts l IH (with_state context s) c1 Hts E).
  - destruct c as [l|]; [|discriminate].
    apply (forEach_counts l IH (with_state context s) c1 Hts E).
  - injection E as <-. rewrite usageCount_helper. auto.
  - injection E as <-. cbn [state nodeTransforms with_state].
    split; [lia | reflexivity].
Qed.

Lemma forEach_returns (l : list node) :
  Forall (fun nd => walkable nd = true ->
                    forall context : TransformContext,
                      exists context', traverseNode nd context = Done context') l ->
  forallb walkable l = true ->
  forall context : TransformContext,
    exists context', forEach traverseNode l context = Done context'.
Proof.
  induction 1 as [|nd l Hnd _ IH]; intros Hw context.
  - now exists context.
  - simpl in Hw. apply andb_true_iff in Hw. destruct Hw as [Hw1 Hw2].
    destruct (Hnd Hw1 context) as [c1 E1].
    destruct (IH Hw2 c1) as [c2 E2].
    exists c2. cbn [forEach]. now rewrite E1.
Qed.

(** The walk returns when every root and element it comes to has a
    [children] array. *)
Lemma traverseNode_returns (nd : node) :
  walkable nd = true ->
  forall context : TransformContext,
    exists context', traverseNode nd context = Done context'.
Proof.
  induction nd as [a t c g h IH] using node_induction.
  intros Hw context. rewrite traverseNode_unfold.
  destruct (runNodeTransforms _ _ _ _ _) as [s exitFns].
  assert (Hvisit : exists c1,
             visitByType (mkNode a t c g h) (with_state context s) = Done c1).
  { unfold Transform.visitByType, Transform.traverseChildren,
      Transform.traverseChildrenWith.
    cbn [type children].
    destruct t; try (eexists; reflexivity);
      (destruct c as [l|]; [|discriminate]);
      now apply forEach_returns. }
  destruct Hvisit as [c1 ->]. cbn [bind]. eexists. reflexivity.
Qed.

(** C5.  On a root whose [children] list is empty, [transform] fails:
    the walk goes through, [createRootCodegen] reads the first child, which
    does not exist, and nothing guards the property read that follows. *)
Theorem transform_empty_root_throws (root : node) (options : Options)
    (world : World) :
  children root = Some [] ->
  transform root options world = Thrown TypeError.
Proof.
  intros Hc. unfold Transform.transform.
  destruct (traverseNode_returns root) with
    (context := createTransformContext root options world)
    as [context' ->].
  { destruct root as [a t c g h]. cbn [children] in Hc. subst c.
    now destruct t. }
  cbn [bind]. unfold createRootCodegen. now rewrite Hc.
Qed.


(** C8.  On a root with a first child [createRootCodegen] returns, and
    the [codegenNode] read from the root afterwards is: when the first
    child is an element that carries a [codegenNode], that very reference
    (the address the child holds, whatever the root held before); when
    the first child is not an element or carries none, a reference to the
    child itself.  The root is the same object and nothing else on it is
    written: its address, type, children and helpers read as before. *)
Theorem createRootCodegen_selects (root : node) (context : TransformContext)
    child rest :
  children root = Some (child :: rest) ->
  exists root',
    createRootCodegen root context = Done root' /\
    (forall g, type child = ELEMENT -> codegenNode child = Some g ->
               codegenNode root' = Some g /\
               codegenNode root' = codegenNode child) /\
    (type child <> ELEMENT \/ codegenNode child = None ->
     codegenNode root' = Some (addr child)) /\
    addr root' = addr root /\ type root' = type root /\
    children root' = children root /\ helpers root' = helpers root.
Proof.
  intros Hc. unfold createRootCodegen. rewrite Hc. cbn [nth_error].
  destruct (isElement (type child) && truthy (codegenNode child)) eqn:E;
    eexists; (split; [reflexivity|]);
    cbn [set_codegenNode codegenNode addr type children helpers];
    (split; [|split; [|now repeat split]]).
  - intros g _ Hg. now rewrite Hg.
  - apply andb_true_iff in E. destruct E as [Et Eg].
    intros [Ht | Hg].
    + destruct (type child); try discriminate. congruence.
    + rewrite Hg in Eg. discriminate.
  - intros g Ht Hg. rewrite Ht, Hg in E. discriminate.
  - reflexivity.
Qed.

End PipelineFacts.

(* ================================================================== *)
(** * The transform pipeline on the sample trees *)

(** The logging plugins touch the log only. *)
Lemma loggingPlugin_keepsUsage k name :
  Transform.keepsUsage string_dec name (Samples.loggingPlugin k).
Proof.
  intros nd s. split; [reflexivity|].
  intros f [= <-] s'. reflexivity.
Qed.

(** A root without children, as a parser that keeps no node would hand
    over. *)
Lemma transform_empty_root_throws_witness :
  Transform.children (Samples.rootOf []) = Some [] /\
  Transform.transform string_dec Samples.TO_DISPLAY_STRING
    (Samples.rootOf []) Samples.threePlugins [] = Thrown TypeError.
Proof.
  split; [reflexivity|].
  apply (transform_empty_root_throws string_dec Samples.TO_DISPLAY_STRING
           (Samples.rootOf []) Samples.threePlugins []).
  reflexivity.
Defined.


(** What the call leaves behind on that tree: the helper list of the root
    names the display-string helper once, and the root's [codegenNode]
    refers to its first child, the element at address 1. *)
Example transform_nested_root :
  exists root' context',
    Transform.transform string_dec Samples.TO_DISPLAY_STRING
      Samples.nestedRoot Samples.noPlugins [] = Done (root', context') /\
    Transform.codegenNode root' = Some 1 /\
    Transform.helpers root' = Some [Samples.TO_DISPLAY_STRING] /\
    Transform.ctx_helpers (Transform.state context') =
      [(Samples.TO_DISPLAY_STRING, 3)].
Proof. eexists. eexists. repeat split. Qed.

(** The sequencing test of the spec: three plugins that append to a
    shared log when they are entered and when they are cleaned up. *)
Example traverseNode_three_plugins_log :
  exists context',
    Transform.traverseNode string_dec Samples.TO_DISPLAY_STRING
      (Samples.text 9)
      (Transform.createTransformContext (Samples.text 9)
         Samples.threePlugins []) = Done context' /\
    Transform.ctx_world (Transform.state context') =
      [Samples.Enter 1 9; Samples.Enter 2 9; Samples.Enter 3 9;
       Samples.Leave 3 9; Samples.Leave 2 9; Samples.Leave 1 9].
Proof. eexists. split; reflexivity. Qed.

(** The cleanups of a node run after the whole walk of its children. *)
Example traverseNode_nested_log :
  exists context',
    Transform.traverseNode string_dec Samples.TO_DISPLAY_STRING
      (Samples.rootOf [Samples.interpolation 1])
      (Transform.createTransformContext
         (Samples.rootOf [Samples.interpolation 1])
         Samples.threePlugins []) = Done context' /\
    Transform.ctx_world (Transform.state context') =
      [Samples.Enter 1 0; Samples.Enter 2 0; Samples.Enter 3 0;
       Samples.Enter 1 1; Samples.Enter 2 1; Samples.Enter 3 1;
       Samples.Leave 3 1; Samples.Leave 2 1; Samples.Leave 1 1;
       Samples.Leave 3 0; Samples.Leave 2 0; Samples.Leave 1 0].
Proof. eexists. split; reflexivity. Qed.

(** A root whose first child is an element with the codegen object at
    address 7 attached, a root whose first child is an interpolation node
    at address 4, and a root whose first child is an element at address 5
    with nothing attached. *)
Lemma createRootCodegen_selects_witness :
  Transform.children (Samples.rootOf [Samples.elementWithCodegen 1 7]) =
    Some [Samples.elementWithCodegen 1 7] /\
  (exists root',
     Transform.createRootCodegen
       (Samples.rootOf [Samples.elementWithCodegen 1 7])
       (Transform.createTransformContext
          (Samples.rootOf [Samples.elementWithCodegen 1 7])
          Samples.noPlugins []) = Done root' /\
     Transform.codegenNode root' = Some 7) /\
  (exists root',
     Transform.createRootCodegen
       (Samples.rootOf [Samples.interpolation 4])
       (Transform.createTransformContext
          (Samples.rootOf [Samples.interpolation 4])
          Samples.noPlugins []) = Done root' /\
     Transform.codegenNode root' = Some 4) /\
  (exists root',
     Transform.createRootCodegen
       (Samples.rootOf [Samples.element 5 []])
       (Transform.createTransformContext
          (Samples.rootOf [Samples.element 5 []])
          Samples.noPlugins []) = Done root' /\
     Transform.codegenNode root' = Some 5).
Proof.
  split; [reflexivity|]. split; [|split].
  - destruct (createRootCodegen_selects
                (Samples.rootOf [Samples.elementWithCodegen 1 7])
                (Transform.createTransformContext
                   (Samples.rootOf [Samples.elementWithCodegen 1 7])
                   Samples.noPlugins [])
                (Samples.elementWithCodegen 1 7) [] eq_refl)
      as (root' & E & Hcarried & _).
    exists root'. split; [exact E|].
    apply (Hcarried 7); reflexivity.
  - destruct (createRootCodegen_selects
                (Samples.rootOf [Samples.interpolation 4])
                (Transform.createTransformContext
                   (Samples.rootOf [Samples.interpolation 4])
                   Samples.noPlugins [])
                (Samples.interpolation 4) [] eq_refl)
      as (root' & E & _ & Hchild & _).
    exists root'. split; [exact E|].
    apply Hchild. left. discriminate.
  - destruct (createRootCodegen_selects
                (Samples.rootOf [Samples.element 5 []])
                (Transform.createTransformContext
                   (Samples.rootOf [Samples.element 5 []])
                   Samples.noPlugins [])
                (Samples.element 5 []) [] eq_refl)
      as (root' & E & _ & Hchild & _).
    exists root'. split; [exact E|].
    apply Hchild. right. reflexivity.
Defined.


(* ================================================================== *)
(** * The parser: the cursor *)

Section Cursor.

Import Ast Parse.
Local Open Scope string_scope.
Local Open Scope outcome_scope.

Lemma length_substring_0 (s : string) k :
  String.length (substring 0 k s) = Nat.min k (String.length s).
Proof.
  revert k; induction s as [|c s IH]; intros [|k]; simpl; auto.
Qed.

Lemma relativeIndex_range len k :
  (0 <= len)%Z -> (0 <= JS.relativeIndex len k <= len)%Z.
Proof.
  intros Hlen. unfold JS.relativeIndex.
  destruct (Z.ltb_spec k 0); lia.
Qed.

Lemma relativeIndex_self len : (0 <= len)%Z -> JS.relativeIndex len len = len.
Proof.
  intros Hlen. unfold JS.relativeIndex.
  destruct (Z.ltb_spec len 0); lia.
Qed.

(** [slice(n)] is what follows the first so many characters, the number
    being the resolved index. *)
Lemma sliceFrom_split s n :
  s = substring 0 (Z.to_nat (JS.relativeIndex (Z.of_nat (String.length s)) n)) s
      ++ JS.sliceFrom s n.
Proof.
  unfold JS.sliceFrom, JS.slice.
  pose proof (relativeIndex_range (Z.of_nat (String.length s)) n
                (Nat2Z.is_nonneg _)) as Hr.
  rewrite relativeIndex_self by apply Nat2Z.is_nonneg.
  set (from := JS.relativeIndex (Z.of_nat (String.length s)) n) in *.
  replace (Z.to_nat (Z.max (Z.of_nat (String.length s) - from) 0))
    with (String.length s - Z.to_nat from) by lia.
  apply substring_split.
Qed.

Lemma slice_0_prefix s n :
  JS.slice s 0 n =
  substring 0 (Z.to_nat (JS.relativeIndex (Z.of_nat (String.length s)) n)) s.
Proof.
  unfold JS.slice.
  pose proof (relativeIndex_range (Z.of_nat (String.length s)) n
                (Nat2Z.is_nonneg _)) as Hr.
  replace (JS.relativeIndex (Z.of_nat (String.length s)) 0) with 0%Z
    by (unfold JS.relativeIndex; simpl; lia).
  f_equal. lia.
Qed.

Lemma suffixOf_refl s : suffixOf s s.
Proof. now exists "". Qed.

Lemma suffixOf_trans a b c : suffixOf a b -> suffixOf b c -> suffixOf a c.
Proof.
  intros [x ->] [y ->]. exists (y ++ x). now rewrite string_app_assoc.
Qed.

Lemma sliceFrom_suffix s n : suffixOf (JS.sliceFrom s n) s.
Proof. eexists. apply sliceFrom_split. Qed.

(** X1.  [advanceBy] only ever drops leading characters: what it leaves
    is a suffix of the source.  For a count that is not negative it drops
    that many characters, or all of them when there are fewer; for a
    negative count it keeps that many trailing characters, or all. *)
Theorem advanceBy_leaves_suffix context n :
  exists consumed,
    source context = consumed ++ source (advanceBy context n) /\
    ((0 <= n)%Z ->
     String.length consumed =
       Nat.min (Z.to_nat n) (String.length (source context))) /\
    ((n < 0)%Z ->
     String.length (source (advanceBy context n)) =
       Nat.min (Z.to_nat (- n)) (String.length (source context))).
Proof.
  destruct context as [s]. cbn [advanceBy source].
  pose proof (sliceFrom_split s n) as Hsplit.
  set (k := Z.to_nat (JS.relativeIndex (Z.of_nat (String.length s)) n)) in *.
  assert (Hk : String.length (substring 0 k s) = k).
  { rewrite length_substring_0. unfold k.
    pose proof (relativeIndex_range (Z.of_nat (String.length s)) n
                  (Nat2Z.is_nonneg _)). lia. }
  exists (substring 0 k s). split; [exact Hsplit|].
  assert (Hlen : String.length s = k + String.length (JS.sliceFrom s n)).
  { rewrite Hsplit at 1. now rewrite string_length_app, Hk. }
  unfold k, JS.relativeIndex in *.
  destruct (Z.ltb_spec n 0); split; intros; lia.
Qed.

(** X2.  [parseTextData] cuts the source in two: the text it returns
    followed by the source it leaves is the source it was given, whatever
    the length asked for. *)
Theorem parseTextData_splits_source context length :
  fst (parseTextData context length) ++
  source (snd (parseTextData context length)) = source context.
Proof.
  destruct context as [s]. cbn [parseTextData advanceBy source fst snd].
  rewrite slice_0_prefix. symmetry. apply sliceFrom_split.
Qed.

(** Every string with two characters or more ends with two characters. *)
Lemma string_last_two s :
  2 <= String.length s ->
  exists front x y, s = front ++ String x (String y "").
Proof.
  intros Hlen.
  pose proof (substring_split s (String.length s - 2)) as Hs.
  set (front := substring 0 (String.length s - 2) s) in *.
  set (back := substring (String.length s - 2)
                 (String.length s - (String.length s - 2)) s) in *.
  assert (Hb : String.length back = 2).
  { assert (String.length front = String.length s - 2)
      by (unfold front; rewrite length_substring_0; lia).
    assert (String.length s = String.length front + String.length back)
      by (rewrite Hs at 1; apply string_length_app).
    lia. }
  destruct back as [|x [|y [|z back]]]; simpl in Hb; try lia.
  now exists front, x, y.
Qed.

(** [slice(0, -k)] of a string that ends with [k] characters, [k] not 0. *)
Lemma slice_0_negative (a t : string) :
  0 < String.length t ->
  JS.slice (a ++ t) 0 (- Z.of_nat (String.length t)) = a.
Proof.
  intros Ht. rewrite slice_0_prefix, string_length_app.
  unfold JS.relativeIndex.
  destruct (Z.ltb_spec (- Z.of_nat (String.length t)) 0) as [Hneg|Hpos]; [|lia].
  replace (Z.to_nat _) with (String.length a) by lia.
  apply substring_0_app.
Qed.

(** X3.  An interpolation that is never closed raises no error.  When
    the closer is not found, the index is -1 and the raw span is cut
    three characters before the end: of a source that opens an
    interpolation, has no closer and is at least five characters long,
    [parseInterpolation] leaves the last character only. *)
Theorem parseInterpolation_unterminated body c :
  2 <= String.length body ->
  JS.indexOf ("{{" ++ body ++ String c "") "}}" 2 = (-1)%Z ->
  parseInterpolation (Parse.mkContext ("{{" ++ body ++ String c "")) =
  (None, Parse.mkContext (String c "")).
Proof.
  intros Hlen Hidx.
  destruct (string_last_two body Hlen) as (front & x & y & ->).
  set (b := front ++ String x (String y (String c ""))).
  assert (Hs : "{{" ++ (front ++ String x (String y "")) ++ String c "" =
               "{{" ++ b).
  { unfold b. now rewrite string_app_assoc. }
  rewrite Hs in *.
  assert (H1 : JS.sliceFrom ("{{" ++ b) 2 = b)
    by exact (sliceFrom_app "{{" b).
  assert (H2 : JS.slice b 0 (-1 - 2) = front).
  { apply (slice_0_negative front (String x (String y (String c "")))).
    simpl. lia. }
  assert (H3 : JS.sliceFrom b (Z.of_nat (String.length front)) =
               String x (String y (String c "")))
    by apply sliceFrom_app.
  assert (H4 : JS.sliceFrom (String x (String y (String c ""))) 2 =
               String c "")
    by exact (sliceFrom_app (String x (String y "")) (String c "")).
  unfold parseInterpolation, parseTextData, advanceBy.
  cbn [source String.length]. change (Z.of_nat 2) with 2%Z.
  now rewrite Hidx, H1, H2, H3, H4.
Qed.

End Cursor.

(** The text of an interpolation whose closer was forgotten. *)
Lemma parseInterpolation_unterminated_witness :
  2 <= String.length " msg" /\
  JS.indexOf ("{{" ++ " msg" ++ String "!" "") "}}" 2 = (-1)%Z /\
  Parse.parseInterpolation
    (Parse.mkContext ("{{" ++ " msg" ++ String "!" "")) =
  (None, Parse.mkContext (String "!" "")).
Proof.
  split; [simpl; lia|]. split; [reflexivity|].
  apply (parseInterpolation_unterminated " msg" "!"); [simpl; lia | reflexivity].
Defined.


(* ================================================================== *)
(** * The parser: tags *)

Section Tags.

Import Ast Parse.
Local Open Scope string_scope.
Local Open Scope outcome_scope.

Lemma takeWhile_split p s :
  exists tail,
    s = takeWhile p s ++ tail /\
    allChars p (takeWhile p s) = true /\
    match tail with EmptyString => True | String d _ => p d = false end.
Proof.
  induction s as [|c s (tail & Hs & Hall & Htail)].
  - now exists "".
  - simpl. destruct (p c) eqn:Hc.
    + exists tail. simpl. rewrite Hc. repeat split; auto. now f_equal.
    + now exists (String c s).
Qed.

Lemma matchTagName_shape s name :
  matchTagName s = Some name ->
  exists tail,
    s = name ++ tail /\ isTagName name = true /\ endsTagName tail = true.
Proof.
  destruct s as [|c r]; [discriminate|]. simpl.
  destruct (JS.isAsciiLetter c) eqn:Hc; [|discriminate].
  intros [= <-].
  destruct (takeWhile_split isTagNameChar r) as (tail & Hr & Hall & Htail).
  exists tail. simpl. rewrite Hc, Hall. repeat split.
  - now f_equal.
  - destruct tail; [reflexivity|]. simpl. now rewrite Htail.
Qed.

(** What a match of the tag pattern looks like. *)
Lemma execTagRegex_shape s match0 name :
  execTagRegex s = Some (match0, name) ->
  exists opener tail,
    (opener = "<" \/ opener = "</") /\ match0 = opener ++ name /\
    s = opener ++ name ++ tail /\
    isTagName name = true /\ endsTagName tail = true.
Proof.
  destruct s as [|c0 r]; [discriminate|].
  destruct (ascii_dec c0 "<") as [->|Hc0].
  2:{ destruct c0 as [[] [] [] [] [] [] [] []]; try discriminate.
      now contradiction Hc0. }
  destruct r as [|c1 r]; [discriminate|].
  destruct (ascii_dec c1 "/") as [->|Hc1].
  - cbn [execTagRegex].
    destruct (matchTagName r) as [n|] eqn:Hm; [|discriminate].
    intros [= <- <-].
    destruct (matchTagName_shape _ _ Hm) as (tail & -> & Hn & Ht).
    exists "</", tail. auto.
  - assert (Hexec : execTagRegex (String "<" (String c1 r)) =
                    match matchTagName (String c1 r) with
                    | Some n => Some ("<" ++ n, n)
                    | None => None
                    end).
    { destruct c1 as [[] [] [] [] [] [] [] []]; try reflexivity.
      now contradiction Hc1. }
    rewrite Hexec.
    destruct (matchTagName (String c1 r)) as [n|] eqn:Hm; [|discriminate].
    intros [= <- <-].
    destruct (matchTagName_shape _ _ Hm) as (tail & Hs & Hn & Ht).
    exists "<", tail. cbn [append]. rewrite Hs. auto.
Qed.

Lemma letter_not_slash c :
  JS.isAsciiLetter c = true -> c <> "/"%char.
Proof. intros H ->. discriminate. Qed.

(** The pattern matches every source that starts with [<], an optional
    slash and a letter. *)
Lemma execTagRegex_matches opener c r :
  opener = "<" \/ opener = "</" -> JS.isAsciiLetter c = true ->
  execTagRegex (opener ++ String c r) <> None.
Proof.
  intros [-> | ->] Hc; cbn [append].
  - assert (Hexec : execTagRegex (String "<" (String c r)) =
                    match matchTagName (String c r) with
                    | Some n => Some ("<" ++ n, n)
                    | None => None
                    end).
    { pose proof (letter_not_slash c Hc) as Hne.
      destruct c as [[] [] [] [] [] [] [] []]; try reflexivity.
      now contradiction Hne. }
    rewrite Hexec. cbn [matchTagName]. now rewrite Hc.
  - cbn [execTagRegex matchTagName]. now rewrite Hc.
Qed.

(** The two [advanceBy] calls of [parseTag] after a match. *)
Lemma advance_past_match (match0 tail : string) :
  advanceBy
    (advanceBy (Parse.mkContext (match0 ++ tail))
               (Z.of_nat (String.length match0))) 1 =
  Parse.mkContext (dropFirst tail).
Proof.
  unfold advanceBy. cbn [source]. f_equal. rewrite sliceFrom_app.
  destruct tail as [|d r]; [reflexivity|].
  apply (sliceFrom_app (String d "") r).
Qed.

(** What a returning call of [parseTag] was given and what it leaves,
    for the proofs about its callers. *)
Lemma parseTag_done_shape context type v context' :
  parseTag context type = Done (v, context') ->
  exists opener name tail,
    (opener = "<" \/ opener = "</") /\
    source context = opener ++ name ++ tail /\
    isTagName name = true /\ endsTagName tail = true /\
    source context' = dropFirst tail /\
    v = match type with
        | End => None
        | Start => Some (Parse.mkNode ELEMENT name PLAIN_ELEMENT None)
        end.
Proof.
  destruct context as [s]. unfold parseTag. cbn [source].
  destruct (execTagRegex s) as [[match0 name]|] eqn:He; [|discriminate].
  destruct (execTagRegex_shape _ _ _ He)
    as (opener & tail & Ho & -> & -> & Hn & Ht).
  rewrite <- string_app_assoc, advance_past_match.
  intros H. exists opener, name, tail.
  destruct type; injection H as <- <-; repeat split; auto;
    now rewrite string_app_assoc.
Qed.

(** X4.  When [parseTag] returns, the source it was given is a [<], an
    optional slash, a tag name (a letter followed by characters that are
    not white space, slash or [>]) and a tail that is empty or starts with
    a character that ends the name.  It leaves the tail without its first
    character, whatever that character is; for a start tag it returns a
    plain element with that tag and no [children] property, for an end tag
    nothing. *)
Theorem parseTag_returns context type v context' :
  parseTag context type = Done (v, context') ->
  exists opener name tail,
    (opener = "<" \/ opener = "</") /\
    source context = opener ++ name ++ tail /\
    isTagName name = true /\ endsTagName tail = true /\
    source context' = dropFirst tail /\
    v = match type with
        | End => None
        | Start => Some (Parse.mkNode ELEMENT name PLAIN_ELEMENT None)
        end.
Proof.
  intros H.
  destruct (parseTag_done_shape _ _ _ _ H)
    as (opener & name & tail & Ho & Hs & Hn & Ht & Hc & Hv).
  exists opener, name, tail. repeat split; assumption.
Qed.

(** X5.  [parseTag] throws exactly when the source does not start with
    [<], an optional slash and an ASCII letter: the pattern then yields
    [null] and the read of its first group is a TypeError. *)
Theorem parseTag_throws_iff context type :
  parseTag context type = Thrown TypeError <->
  ~ exists opener c r,
      (opener = "<" \/ opener = "</") /\ JS.isAsciiLetter c = true /\
      source context = opener ++ String c r.
Proof.
  destruct context as [s]. unfold parseTag. cbn [source]. split.
  - intros H (opener & c & r & Ho & Hc & ->).
    pose proof (execTagRegex_matches opener c r Ho Hc) as Hm.
    destruct (execTagRegex (opener ++ String c r)) as [[m0 n]|];
      [|congruence].
    destruct type; discriminate.
  - intros Hno.
    destruct (execTagRegex s) as [[match0 name]|] eqn:He; [|reflexivity].
    exfalso. apply Hno.
    destruct (execTagRegex_shape _ _ _ He)
      as (opener & tail & Ho & _ & -> & Hn & _).
    destruct name as [|c r]; [discriminate|].
    exists opener, c, (r ++ tail). repeat split; auto.
    simpl in Hn. now apply andb_true_iff in Hn.
Qed.

End Tags.

(** A start tag with an attribute: the name ends at the space, and the
    space is the character dropped after it. *)
Lemma parseTag_returns_witness :
  Parse.parseTag (Parse.mkContext "<div id=a>") Parse.Start =
    Done (Some Samples.divElement, Parse.mkContext "id=a>") /\
  exists opener name tail,
    (opener = "<" \/ opener = "</")%string /\
    ("<div id=a>" = opener ++ name ++ tail)%string /\
    isTagName name = true /\ endsTagName tail = true /\
    "id=a>"%string = dropFirst tail /\
    Some Samples.divElement =
      Some (Parse.mkNode Ast.ELEMENT name Ast.PLAIN_ELEMENT None).
Proof.
  split; [reflexivity|].
  apply (parseTag_returns (Parse.mkContext "<div id=a>") Parse.Start
           (Some Samples.divElement) (Parse.mkContext "id=a>")).
  reflexivity.
Defined.


(* ================================================================== *)
(** * The parser: the children loop *)

Section ChildrenLoop.

Import Ast Parse.
Local Open Scope string_scope.
Local Open Scope outcome_scope.

Lemma isEndLoop_true s ancestors n :
  isEndLoop s ancestors n = true ->
  exists a, In a ancestors /\ startsWithEndTagOpen s (tag a) = true.
Proof.
  induction n as [|n IH]; [discriminate|]. simpl.
  destruct (nth_error ancestors n) as [a|] eqn:Ha; [|discriminate].
  destruct (startsWithEndTagOpen s (tag a)) eqn:Hs; [|exact IH].
  intros _. exists a. split; [|exact Hs]. eapply nth_error_In, Ha.
Qed.

(** X6.  [isEnd] answers yes exactly when the source starts with a
    closing tag that matches the tag of some open element, at any depth
    of the ancestors stack.  In particular it never answers yes with no
    element open, and never because the source is used up. *)
Theorem isEnd_iff context ancestors :
  isEnd context ancestors = true <->
  exists a, In a ancestors /\
            startsWithEndTagOpen (source context) (tag a) = true.
Proof.
  split.
  - unfold isEnd. destruct (JS.startsWith (source context) "</");
      [|discriminate].
    apply isEndLoop_true.
  - intros (a & Hin & Hs). destruct context as [s].
    now apply (isEnd_ancestor s ancestors a).
Qed.

(** X7.  The loop of [parseChildren] has no branch for text.  When the
    source starts with neither an interpolation nor a [<] that the letter
    tests accept, and no open element is being closed, the body consumes
    nothing and the loop never ends, for any budget. *)
Theorem parseChildren_spins_on_text context ancestors :
  isEnd context ancestors = false ->
  noBranchApplies (source context) = true ->
  forall fuel, parseChildren fuel context ancestors = OutOfFuel.
Proof.
  intros Hend Hno fuel. induction fuel as [|fuel IH]; [reflexivity|].
  rewrite parseChildren_step, Hend. cbv zeta.
  unfold noBranchApplies in Hno.
  destruct (Parse.startsWith (source context) "{{"); [discriminate|].
  destruct (charIs (JS.charAt (source context) 0) "<"); [|exact IH].
  destruct (charIs (JS.charAt (source context) 1) "/").
  - destruct (testLetter (JS.charAt (source context) 2));
      [discriminate | exact IH].
  - destruct (testLetter (JS.charAt (source context) 1));
      [discriminate | exact IH].
Qed.

(** X8.  When [parseChildren] returns, it returns [undefined], it has
    left the ancestors stack as it found it, and the source it leaves
    starts with a closing tag that matches one of the ancestors. *)
Theorem parseChildren_exit_state fuel context ancestors v context' ancestors' :
  parseChildren fuel context ancestors = Done (v, context', ancestors') ->
  v = None /\ ancestors' = ancestors /\
  exists a, In a ancestors /\
            startsWithEndTagOpen (source context') (tag a) = true.
Proof.
  intros H. apply (proj1 (parse_returns fuel)) in H.
  destruct H as (Hv & Ha & Hend). repeat split; auto.
  unfold isEnd in Hend.
  destruct (JS.startsWith (source context') "</"); [|discriminate].
  now apply isEndLoop_true in Hend.
Qed.

(** X9.  When [parseElement] returns, it has left the ancestors stack as
    it found it, and the node it returns is a plain element whose tag is
    a tag name and whose [children] property is [undefined]: no parsed
    child is ever attached. *)
Theorem parseElement_result fuel context ancestors v context' ancestors' :
  parseElement fuel context ancestors = Done (v, context', ancestors') ->
  ancestors' = ancestors /\
  exists name,
    v = Some (Parse.mkNode ELEMENT name PLAIN_ELEMENT None) /\
    isTagName name = true.
Proof.
  intros H. split; [now apply (proj2 (parse_returns fuel)) in H|].
  destruct fuel as [|fuel]; [discriminate|].
  rewrite parseElement_step in H.
  destruct (parseTag context Start) as [[el c1]| |] eqn:Ht;
    cbn [bind] in H; try discriminate.
  destruct (parseTag_done_shape _ _ _ _ Ht)
    as (opener & name & tail & _ & _ & Hn & _ & _ & ->).
  destruct (parseChildren fuel c1 _) as [[[ch c2] a2]| |] eqn:Hc;
    cbn [bind] in H; try discriminate.
  apply parseChildren_result_undefined in Hc. subst ch.
  destruct (startsWithEndTagOpen _ _); [|discriminate].
  destruct (parseTag c2 End) as [[? c3]| |]; cbn [bind] in H;
    try discriminate.
  injection H as <- _ _. now exists name.
Qed.

Lemma parseTag_moves_forward context type v context' :
  parseTag context type = Done (v, context') ->
  suffixOf (source context') (source context) /\
  String.length (source context') < String.length (source context).
Proof.
  intros H.
  destruct (parseTag_done_shape _ _ _ _ H)
    as (opener & name & tail & Ho & -> & Hn & _ & -> & _).
  split.
  - destruct tail as [|d r]; cbn [dropFirst].
    + exists (opener ++ name ++ ""). now rewrite !string_app_assoc.
    + exists (opener ++ name ++ String d "").
      rewrite !string_app_assoc. reflexivity.
  - rewrite !string_length_app.
    assert (0 < String.length opener) by (destruct Ho as [-> | ->]; simpl; lia).
    destruct tail; simpl; lia.
Qed.

Lemma parseInterpolation_moves_forward context :
  suffixOf (source (snd (parseInterpolation context))) (source context).
Proof.
  unfold parseInterpolation, parseTextData, advanceBy. cbn [source snd].
  eapply suffixOf_trans; [apply sliceFrom_suffix|].
  eapply suffixOf_trans; apply sliceFrom_suffix.
Qed.

(** X10.  The parser only moves forward.  When [parseChildren] or
    [parseElement] returns, the source it leaves is a suffix of the source
    it was given; after [parseElement] it is a shorter one, an element
    consuming at least its tags. *)
Theorem parser_moves_forward fuel :
  (forall context ancestors v context' ancestors',
      parseChildren fuel context ancestors = Done (v, context', ancestors') ->
      suffixOf (source context') (source context)) /\
  (forall context ancestors v context' ancestors',
      parseElement fuel context ancestors = Done (v, context', ancestors') ->
      suffixOf (source context') (source context) /\
      String.length (source context') < String.length (source context)).
Proof.
  induction fuel as [|fuel [IHc IHe]]; [split; discriminate|].
  split; intros context ancestors v context' ancestors'.
  - rewrite parseChildren_step. cbv zeta.
    destruct (isEnd context ancestors).
    { intros [= _ <- _]. apply suffixOf_refl. }
    destruct (Parse.startsWith _ _).
    { pose proof (parseInterpolation_moves_forward context) as Hi.
      destruct (parseInterpolation context) as [n c1]. cbn [snd] in Hi.
      intros H. eapply suffixOf_trans; [eapply IHc, H | exact Hi]. }
    destruct (charIs _ _); [|apply IHc].
    destruct (charIs _ _).
    + destruct (testLetter _); [|apply IHc].
      destruct (parseTag context End) as [[? c1] | |] eqn:Ht; cbn [bind];
        try discriminate.
      intros H. eapply suffixOf_trans; [eapply IHc, H|].
      eapply parseTag_moves_forward, Ht.
    + destruct (testLetter _); [|apply IHc].
      destruct (parseElement fuel context ancestors) as [[[? c1] a1] | |] eqn:He;
        cbn [bind]; try discriminate.
      intros H. eapply suffixOf_trans; [eapply IHc, H|].
      eapply IHe, He.
  - rewrite parseElement_step.
    destruct (parseTag context Start) as [[[element|] c1] | |] eqn:Ht;
      cbn [bind]; try discriminate.
    destruct (parseTag_moves_forward _ _ _ _ Ht) as [S1 L1].
    destruct (parseChildren fuel c1 (ancestors ++ [element])%list)
      as [[[ch c2] a2] | |] eqn:Hc; cbn [bind]; try discriminate.
    pose proof (IHc _ _ _ _ _ Hc) as S2.
    destruct (startsWithEndTagOpen _ _); [|discriminate].
    destruct (parseTag c2 End) as [[? c3] | |] eqn:Ht2; cbn [bind];
      try discriminate.
    destruct (parseTag_moves_forward _ _ _ _ Ht2) as [S3 L3].
    intros [= _ <- _]. split.
    + eapply suffixOf_trans; [exact S3|].
      eapply suffixOf_trans; [exact S2 | exact S1].
    + destruct S2 as [x Hx]. rewrite Hx, string_length_app in L1. lia.
Qed.

(** X11.  [baseParse] hands back a root for no template at all: for every
    template and every budget the call either is still running or has
    thrown.  The outermost loop has no open element, so nothing can end
    it but an exception. *)
Theorem baseParse_ends_only_by_throwing fuel content :
  baseParse fuel content = OutOfFuel \/
  exists e, baseParse fuel content = Thrown e.
Proof.
  pose proof (baseParse_never_returns fuel content) as H.
  destruct (baseParse fuel content) as [root | e |].
  - now contradiction (H root).
  - right. now exists e.
  - now left.
Qed.

(** How a source that starts with a start tag, or with an end tag, is
    dispatched by the tests of the loop. *)
Lemma tests_at_start_tag name tail :
  isTagName name = true ->
  let s := "<" ++ name ++ tail in
  JS.startsWith s "</" = false /\ Parse.startsWith s "{{" = false /\
  charIs (JS.charAt s 0) "<" = true /\ charIs (JS.charAt s 1) "/" = false /\
  testLetter (JS.charAt s 1) = true.
Proof.
  destruct name as [|c r]; [discriminate|]. simpl isTagName.
  intros H. apply andb_true_iff in H. destruct H as [Hc _].
  pose proof (letter_not_slash c Hc) as Hne.
  cbn [append JS.charAt String.get charIs testLetter]. repeat split; auto.
  - destruct (JS.startsWith (String "<" (String c (r ++ tail))) "</") eqn:E;
      [|reflexivity].
    apply startsWith_inv in E. destruct E as [r' E].
    injection E as E _. now contradiction Hne.
  - apply Ascii.eqb_neq. exact Hne.
Qed.

Lemma tests_at_end_tag name tail :
  isTagName name = true ->
  let s := "</" ++ name ++ tail in
  Parse.startsWith s "{{" = false /\
  charIs (JS.charAt s 0) "<" = true /\ charIs (JS.charAt s 1) "/" = true /\
  testLetter (JS.charAt s 2) = true.
Proof.
  destruct name as [|c r]; [discriminate|]. simpl isTagName.
  intros H. apply andb_true_iff in H. destruct H as [Hc _].
  cbn [append JS.charAt String.get charIs testLetter]. repeat split; auto.
Qed.

(** X12.  A closing tag that closes no open element is skipped without
    an error: the loop consumes it and goes on with what follows. *)
Theorem stray_closing_tag_skipped name rest ancestors fuel :
  isTagName name = true ->
  isEnd (Parse.mkContext ("</" ++ name ++ String ">" rest)) ancestors = false ->
  parseChildren (S fuel)
    (Parse.mkContext ("</" ++ name ++ String ">" rest)) ancestors =
  parseChildren fuel (Parse.mkContext rest) ancestors.
Proof.
  intros Hn Hend. rewrite parseChildren_step, Hend. cbv zeta. cbn [source].
  destruct (tests_at_end_tag name (String ">" rest) Hn) as (-> & -> & -> & ->).
  now rewrite parseTag_end.
Qed.

(** X13.  An element still open when the closing tag of an enclosing
    element arrives is reported by name: the inner children loop stops at
    the outer closing tag, which does not match the inner tag, and
    [parseElement] throws the missing-closing-tag error for the inner
    tag.  The error ends [baseParse] too. *)
Theorem inner_element_left_open outer inner rest fuel :
  isTagName outer = true -> isTagName inner = true ->
  startsWithEndTagOpen ("</" ++ outer ++ String ">" rest) inner = false ->
  baseParse (5 + fuel)
    ("<" ++ outer ++ String ">"
       ("<" ++ inner ++ String ">" ("</" ++ outer ++ String ">" rest))) =
  Thrown (MissingClosingTag inner).
Proof.
  intros Ho Hi Hmiss.
  set (closer := "</" ++ outer ++ String ">" rest) in *.
  unfold baseParse, createParserContext.
  change (5 + fuel) with (S (S (S (S (S fuel))))).
  (* the outermost loop meets the start tag of the outer element *)
  rewrite parseChildren_step. cbv zeta. cbn [source].
  unfold isEnd at 1. cbn [source].
  destruct (tests_at_start_tag outer
              (String ">" ("<" ++ inner ++ String ">" closer)) Ho)
    as (-> & -> & -> & -> & ->).
  rewrite parseElement_step, parseTag_start by assumption. cbn [bind].
  (* the loop of the outer element meets the start tag of the inner one *)
  rewrite parseChildren_step. cbv zeta. cbn [source].
  unfold isEnd at 1. cbn [source].
  destruct (tests_at_start_tag inner (String ">" closer) Hi)
    as (-> & -> & -> & -> & ->).
  rewrite parseElement_step, parseTag_start by assumption. cbn [bind].
  (* the loop of the inner element stops at the outer closing tag *)
  rewrite parseChildren_step.
  rewrite (isEnd_ancestor closer _
             (Parse.mkNode ELEMENT outer PLAIN_ELEMENT None)).
  - cbn [bind source tag]. now rewrite Hmiss.
  - apply in_or_app. left. apply in_or_app. right. now left.
  - unfold closer. cbn [tag].
    apply (startsWithEndTagOpen_intro outer (String ">" rest) outer);
      reflexivity.
Qed.

End ChildrenLoop.

(** Text after an element that is open. *)
Lemma parseChildren_spins_on_text_witness :
  Parse.isEnd (Parse.mkContext "hello</div>") [Samples.divElement] = false /\
  noBranchApplies "hello</div>" = true /\
  forall fuel,
    Parse.parseChildren fuel (Parse.mkContext "hello</div>")
      [Samples.divElement] = OutOfFuel.
Proof.
  split; [reflexivity|]. split; [reflexivity|].
  apply (parseChildren_spins_on_text (Parse.mkContext "hello</div>")
           [Samples.divElement]); reflexivity.
Defined.

(** The children loop of an open div, at its closing tag. *)
Lemma parseChildren_exit_state_witness :
  Parse.parseChildren 1 (Parse.mkContext "</div>") [Samples.divElement] =
    Done (None, Parse.mkContext "</div>", [Samples.divElement]) /\
  (None : option (list Parse.Node)) = None /\
  [Samples.divElement] = [Samples.divElement] /\
  exists a, In a [Samples.divElement] /\
            Parse.startsWithEndTagOpen "</div>" (Parse.tag a) = true.
Proof.
  split; [reflexivity|].
  apply (parseChildren_exit_state 1 (Parse.mkContext "</div>")
           [Samples.divElement] None (Parse.mkContext "</div>")
           [Samples.divElement]).
  reflexivity.
Defined.

(** An element with an element inside. *)
Lemma parseElement_result_witness :
  Parse.parseElement 4 (Parse.mkContext "<div><p></p></div>rest") [] =
    Done (Some Samples.divElement, Parse.mkContext "rest", []) /\
  @nil Parse.Node = [] /\
  exists name,
    Some Samples.divElement =
      Some (Parse.mkNode Ast.ELEMENT name Ast.PLAIN_ELEMENT None) /\
    isTagName name = true.
Proof.
  split; [reflexivity|].
  apply (parseElement_result 4 (Parse.mkContext "<div><p></p></div>rest")
           [] (Some Samples.divElement) (Parse.mkContext "rest") []).
  reflexivity.
Defined.

(** The same element: what is left is the text after it. *)
Lemma parser_moves_forward_witness :
  Parse.parseElement 4 (Parse.mkContext "<div><p></p></div>rest") [] =
    Done (Some Samples.divElement, Parse.mkContext "rest", []) /\
  suffixOf "rest" "<div><p></p></div>rest" /\
  String.length "rest" < String.length "<div><p></p></div>rest".
Proof.
  split; [reflexivity|].
  apply (proj2 (parser_moves_forward 4)
           (Parse.mkContext "<div><p></p></div>rest")
           [] (Some Samples.divElement) (Parse.mkContext "rest") []).
  reflexivity.
Defined.

(** A closing tag of a span met inside a div. *)
Lemma stray_closing_tag_skipped_witness :
  isTagName "span" = true /\
  Parse.isEnd (Parse.mkContext "</span>x") [Samples.divElement] = false /\
  Parse.parseChildren 3 (Parse.mkContext "</span>x") [Samples.divElement] =
  Parse.parseChildren 2 (Parse.mkContext "x") [Samples.divElement].
Proof.
  split; [reflexivity|]. split; [reflexivity|].
  apply (stray_closing_tag_skipped "span" "x" [Samples.divElement] 2);
    reflexivity.
Defined.

(** A span left open inside a div. *)
Lemma inner_element_left_open_witness :
  isTagName "div" = true /\ isTagName "span" = true /\
  Parse.startsWithEndTagOpen "</div>" "span" = false /\
  Parse.baseParse 5 "<div><span></div>" = Thrown (MissingClosingTag "span").
Proof.
  split; [reflexivity|]. split; [reflexivity|]. split; [reflexivity|].
  apply (inner_element_left_open "div" "span" "" 0); reflexivity.
Defined.


(* ================================================================== *)
(** * The transform pipeline: helpers, failures, the default options *)

Section PipelineMore.

Import Ast Transform.
Local Open Scope outcome_scope.

Context {Helper : Type}.
Variable Helper_eq_dec : forall a b : Helper, {a = b} + {a <> b}.
Variable TO_DISPLAY_STRING : Helper.
Context {World : Type}.

Local Abbreviation node := (@Transform.node Helper).
Local Abbreviation TransformContext :=
  (@Transform.TransformContext Helper World).
Local Abbreviation Options := (@Transform.Options Helper World).
Local Abbreviation traverseNode :=
  (Transform.traverseNode Helper_eq_dec TO_DISPLAY_STRING).
Local Abbreviation visitByType :=
  (Transform.visitByType Helper_eq_dec TO_DISPLAY_STRING).
Local Abbreviation transform :=
  (Transform.transform Helper_eq_dec TO_DISPLAY_STRING).
Local Abbreviation helper := (Transform.helper Helper_eq_dec).
Local Abbreviation usageCount := (Transform.usageCount Helper_eq_dec).
Local Abbreviation mapGet := (Transform.mapGet Helper_eq_dec).
Local Abbreviation mapSet := (Transform.mapSet Helper_eq_dec).

Lemma mapGet_mapSet_other (m : HelperMap) (name other : Helper) (v : nat) :
  other <> name -> mapGet (mapSet m name v) other = mapGet m other.
Proof.
  intros Hne. induction m as [|[k w] m IH]; simpl.
  - destruct (Helper_eq_dec name other); congruence.
  - destruct (Helper_eq_dec k name) as [->|]; simpl.
    + destruct (Helper_eq_dec name other); congruence.
    + destruct (Helper_eq_dec k other); [reflexivity | exact IH].
Qed.

Lemma mapGet_None (m : HelperMap) (name : Helper) :
  mapGet m name = None <-> ~ In name (mapKeys m).
Proof.
  induction m as [|[k w] m IH]; simpl; [tauto|].
  destruct (Helper_eq_dec k name) as [->|Hne].
  - split; [discriminate | intros H; exfalso; auto].
  - rewrite IH. tauto.
Qed.

Lemma mapKeys_mapSet (m : HelperMap) (name : Helper) (v : nat) :
  mapKeys (mapSet m name v) =
  match mapGet m name with
  | Some _ => mapKeys m
  | None => mapKeys m ++ [name]
  end.
Proof.
  induction m as [|[k w] m IH]; simpl; [reflexivity|].
  destruct (Helper_eq_dec k name) as [->|Hne]; simpl; [reflexivity|].
  rewrite IH. now destruct (mapGet m name).
Qed.

(** X14.  [context.helper(name)] adds one to the count of [name], the
    count of a name not yet in the map being 0; it leaves the count of
    every other name as it was; it puts [name] after the keys already
    there when it is new and leaves the key order alone otherwise, so
    that keys stay distinct; and it touches nothing else in the context. *)
Theorem helper_registers (context : TransformContext) (name : Helper) :
  let before := ctx_helpers (state context) in
  let after := ctx_helpers (state (helper context name)) in
  usageCount (state (helper context name)) name =
    usageCount (state context) name + 1 /\
  (forall other, other <> name ->
     usageCount (state (helper context name)) other =
     usageCount (state context) other) /\
  mapKeys after =
    match mapGet before name with
    | Some _ => mapKeys before
    | None => mapKeys before ++ [name]
    end /\
  (NoDup (mapKeys before) -> NoDup (mapKeys after)) /\
  ctx_world (state (helper context name)) = ctx_world (state context) /\
  nodeTransforms (helper context name) = nodeTransforms context.
Proof.
  cbv zeta. split; [apply usageCount_helper|].
  unfold Transform.usageCount, Transform.helper.
  cbn [state with_state ctx_helpers ctx_world nodeTransforms].
  split; [|split; [|split; [|split]]]; try reflexivity.
  - intros other Hne. now rewrite mapGet_mapSet_other.
  - apply mapKeys_mapSet.
  - intros Hnd. rewrite mapKeys_mapSet.
    destruct (Transform.mapGet Helper_eq_dec
                (ctx_helpers (state context)) name) eqn:Hg; [exact Hnd|].
    apply mapGet_None in Hg.
    apply NoDup_app; [exact Hnd | repeat constructor; auto |].
    intros x Hx [<- | []]. contradiction.
Qed.

Lemma forEach_throws (l : list node) :
  Forall (fun nd => walkable nd = false ->
                    forall context : TransformContext,
                      traverseNode nd context = Thrown TypeError) l ->
  forallb walkable l = false ->
  forall context : TransformContext,
    forEach traverseNode l context = Thrown TypeError.
Proof.
  induction 1 as [|nd l Hnd _ IH]; [discriminate|].
  intros Hw context. cbn [forEach]. simpl in Hw.
  destruct (walkable nd) eqn:Hwn.
  - destruct (traverseNode_returns Helper_eq_dec TO_DISPLAY_STRING nd Hwn
                context) as [c1 ->].
    cbn [bind]. now apply IH.
  - now rewrite Hnd.
Qed.

(** The walk throws when it comes to a root or element without a
    [children] array. *)
Lemma traverseNode_throws (nd : node) :
  walkable nd = false ->
  forall context : TransformContext,
    traverseNode nd context = Thrown TypeError.
Proof.
  induction nd as [a t c g h IH] using node_induction.
  intros Hw context. rewrite traverseNode_unfold.
  destruct (runNodeTransforms _ _ _ _ _) as [s exitFns].
  assert (Hvisit : visitByType (mkNode a t c g h) (with_state context s) =
                   Thrown TypeError).
  { unfold Transform.visitByType, Transform.traverseChildren,
      Transform.traverseChildrenWith.
    cbn [type children].
    destruct t; try discriminate;
      (destruct c as [l|]; [|reflexivity]);
      now apply forEach_throws. }
  now rewrite Hvisit.
Qed.

(** X15.  [transform] returns exactly when the tree can be walked (every
    root and element the walk comes to has a [children] array), the root
    has a first child and the root has a [helpers] array; in every other
    case it throws a TypeError, whatever the plugins are. *)
Theorem transform_returns_iff (root : node) (options : Options)
    (world : World) :
  (transformable root = true ->
   exists root' context',
     transform root options world = Done (root', context')) /\
  (transformable root = false ->
   transform root options world = Thrown TypeError).
Proof.
  unfold transformable, hasFirstChild, hasHelpers, Transform.transform.
  split.
  - intros H. apply andb_true_iff in H. destruct H as [H Hh].
    apply andb_true_iff in H. destruct H as [Hw Hc].
    destruct (traverseNode_returns Helper_eq_dec TO_DISPLAY_STRING root Hw
                (createTransformContext root options world)) as [c1 ->].
    cbn [bind]. unfold createRootCodegen.
    destruct (children root) as [[|child rest]|]; try discriminate.
    cbn [nth_error].
    destruct (isElement (type child) && truthy (codegenNode child));
      cbn [bind]; unfold set_codegenNode; cbn [helpers];
      (destruct (helpers root); [|discriminate]);
      eexists; eexists; reflexivity.
  - intros H.
    destruct (walkable root) eqn:Hw.
    2:{ now rewrite traverseNode_throws. }
    destruct (traverseNode_returns Helper_eq_dec TO_DISPLAY_STRING root Hw
                (createTransformContext root options world)) as [c1 ->].
    cbn [bind]. unfold createRootCodegen.
    destruct (children root) as [[|child rest]|]; try reflexivity.
    cbn [nth_error].
    destruct (isElement (type child) && truthy (codegenNode child));
      cbn [bind]; unfold set_codegenNode; cbn [helpers];
      (destruct (helpers root); [discriminate | reflexivity]).
Qed.

(** [n] registrations of the display-string helper, one after another. *)
Lemma iter_helper_keeps (n : nat) (context : TransformContext) :
  nodeTransforms (Nat.iter n (fun c => helper c TO_DISPLAY_STRING) context) =
    nodeTransforms context /\
  root (Nat.iter n (fun c => helper c TO_DISPLAY_STRING) context) =
    root context /\
  ctx_world (state (Nat.iter n (fun c => helper c TO_DISPLAY_STRING) context)) =
    ctx_world (state context).
Proof.
  induction n as [|n (H1 & H2 & H3)]; [auto|].
  rewrite Nat.iter_succ. unfold Transform.helper at 1 3 5.
  cbn [nodeTransforms root state with_state ctx_world]. auto.
Qed.

Lemma iter_helper_fresh (n : nat) (context : TransformContext) :
  ctx_helpers (state context) = [] ->
  ctx_helpers
    (state (Nat.iter n (fun c => helper c TO_DISPLAY_STRING) context)) =
  match n with 0 => [] | S _ => [(TO_DISPLAY_STRING, n)] end.
Proof.
  intros H0. induction n as [|n IH]; [exact H0|].
  rewrite Nat.iter_succ. unfold Transform.helper at 1.
  cbn [state with_state ctx_helpers]. rewrite IH.
  destruct n as [|n]; simpl.
  - reflexivity.
  - destruct (Helper_eq_dec TO_DISPLAY_STRING TO_DISPLAY_STRING);
      [|congruence].
    simpl. destruct (Helper_eq_dec TO_DISPLAY_STRING TO_DISPLAY_STRING);
      [|congruence].
    do 2 f_equal. lia.
Qed.

Lemma with_state_same (context : TransformContext) :
  with_state context (state context) = context.
Proof. now destruct context. Qed.

Lemma forEach_no_plugins (l : list node) :
  Forall (fun nd =>
            walkable nd = true ->
            forall context : TransformContext,
              nodeTransforms context = [] ->
              traverseNode nd context =
              Done (Nat.iter (visitedInterpolations nd)
                      (fun c => helper c TO_DISPLAY_STRING) context)) l ->
  forallb walkable l = true ->
  forall context : TransformContext,
    nodeTransforms context = [] ->
    forEach traverseNode l context =
    Done (Nat.iter (list_sum (map visitedInterpolations l))
            (fun c => helper c TO_DISPLAY_STRING) context).
Proof.
  induction 1 as [|nd l Hnd _ IH]; intros Hw context Hts; [reflexivity|].
  simpl in Hw. apply andb_true_iff in Hw. destruct Hw as [Hw1 Hw2].
  cbn [forEach]. rewrite Hnd by assumption. cbn [bind].
  rewrite IH; [|assumption|].
  - change (list_sum (map visitedInterpolations (nd :: l)))
      with (visitedInterpolations nd + list_sum (map visitedInterpolations l)).
    now rewrite Nat.add_comm, Nat.iter_add.
  - now rewrite (proj1 (iter_helper_keeps _ context)).
Qed.

(** Without plugins the walk is as many registrations of the helper as
    there are interpolation nodes on its way. *)
Lemma traverseNode_no_plugins (nd : node) :
  walkable nd = true ->
  forall context : TransformContext,
    nodeTransforms context = [] ->
    traverseNode nd context =
    Done (Nat.iter (visitedInterpolations nd)
            (fun c => helper c TO_DISPLAY_STRING) context).
Proof.
  induction nd as [a t c g h IH] using node_induction.
  intros Hw context Hts. rewrite traverseNode_unfold, Hts.
  cbn [length runNodeTransforms]. rewrite with_state_same.
  assert (Hvisit : visitByType (mkNode a t c g h) context =
                   Done (Nat.iter (visitedInterpolations (mkNode a t c g h))
                           (fun c => helper c TO_DISPLAY_STRING) context)).
  { unfold Transform.visitByType, Transform.traverseChildren,
      Transform.traverseChildrenWith.
    cbn [type children visitedInterpolations].
    destruct t; try reflexivity;
      (destruct c as [l|]; [|discriminate]);
      now apply forEach_no_plugins. }
  rewrite Hvisit. cbn [bind length runExitFns].
  now rewrite with_state_same.
Qed.

(** X16.  With no plugin registered, as with the default options,
    [transform] on a tree it accepts returns; it leaves the plugin state
    untouched and records in the context the number of interpolation
    nodes the walk came to.  Read from the root afterwards, [codegenNode]
    is the reference [createRootCodegen] takes from the first child, and
    [helpers] is the list of before followed by the display-string helper,
    once, if the walk came to an interpolation node, and by nothing
    otherwise; the root's address, type and children read as before. *)
Theorem transform_without_plugins (root : node) (options : Options)
    (world : World) child rest l :
  nodeTransforms (createTransformContext root options world) = [] ->
  walkable root = true ->
  children root = Some (child :: rest) ->
  helpers root = Some l ->
  let n := visitedInterpolations root in
  exists root',
    transform root options world =
    Done
      (root',
       {| root := addr root; nodeTransforms := [];
          state := {| ctx_helpers :=
                        match n with
                        | 0 => []
                        | S _ => [(TO_DISPLAY_STRING, n)]
                        end;
                      ctx_world := world |} |}) /\
    codegenNode root' =
      (if isElement (type child) && truthy (codegenNode child)
       then codegenNode child else Some (addr child)) /\
    helpers root' =
      Some (l ++ match n with 0 => [] | S _ => [TO_DISPLAY_STRING] end) /\
    addr root' = addr root /\ type root' = type root /\
    children root' = children root.
Proof.
  intros Hts Hw Hc Hh n. unfold Transform.transform.
  rewrite traverseNode_no_plugins by assumption. cbn [bind]. fold n.
  set (c0 := createTransformContext root options world) in *.
  set (c1 := Nat.iter n (fun c => helper c TO_DISPLAY_STRING) c0).
  destruct (iter_helper_keeps n c0) as (K1 & K2 & K3). fold c1 in K1, K2, K3.
  pose proof (iter_helper_fresh n c0 eq_refl) as K4. fold c1 in K4.
  assert (Hc1 : c1 = {| root := addr root; nodeTransforms := [];
                        state := {| ctx_helpers :=
                                      match n with
                                      | 0 => []
                                      | S _ => [(TO_DISPLAY_STRING, n)]
                                      end;
                                    ctx_world := world |} |}).
  { destruct c1 as [r ts [hs w]].
    cbn [nodeTransforms Transform.root state ctx_world ctx_helpers] in *.
    rewrite Hts in K1. subst. reflexivity. }
  rewrite Hc1. unfold createRootCodegen. rewrite Hc. cbn [nth_error].
  destruct (isElement (type child) && truthy (codegenNode child));
    cbn [bind]; unfold set_codegenNode at 1; cbn [helpers]; rewrite Hh;
    cbn [state ctx_helpers]; eexists; (split; [reflexivity|]);
    cbn [set_helpers set_codegenNode codegenNode helpers addr type children];
    destruct n; now repeat split.
Qed.

End PipelineMore.

(** The nested sample tree: three interpolation nodes on the way of the
    walk, a first child at address 1 with nothing attached, and an empty
    helper list to start from. *)
Lemma transform_without_plugins_witness :
  Transform.nodeTransforms
    (Transform.createTransformContext Samples.nestedRoot
       Samples.noPlugins []) = [] /\
  Transform.walkable Samples.nestedRoot = true /\
  exists root',
    Transform.transform string_dec Samples.TO_DISPLAY_STRING
      Samples.nestedRoot Samples.noPlugins [] =
    Done
      (root',
       {| Transform.root := 0; Transform.nodeTransforms := [];
          Transform.state :=
            {| Transform.ctx_helpers := [(Samples.TO_DISPLAY_STRING, 3)];
               Transform.ctx_world := [] |} |}) /\
    Transform.codegenNode root' = Some 1 /\
    Transform.helpers root' = Some [Samples.TO_DISPLAY_STRING].
Proof.
  split; [reflexivity|]. split; [reflexivity|].
  destruct (transform_without_plugins string_dec Samples.TO_DISPLAY_STRING
              Samples.nestedRoot Samples.noPlugins []
              (Samples.element 1
                 [Samples.interpolation 2;
                  Samples.element 3 [Samples.interpolation 4]])
              [Samples.interpolation 5] []
              eq_refl eq_refl eq_refl eq_refl)
    as (root' & E & Hg & Hh & _).
  exists root'. split; [exact E|]. split; [exact Hg | exact Hh].
Defined.


(** A tree [transform] accepts and a root it rejects. *)
Lemma transform_returns_iff_witness :
  transformable Samples.nestedRoot = true /\
  (exists root' context',
     Transform.transform string_dec Samples.TO_DISPLAY_STRING
       Samples.nestedRoot Samples.threePlugins [] = Done (root', context')) /\
  transformable (Samples.rootOf []) = false /\
  Transform.transform string_dec Samples.TO_DISPLAY_STRING
    (Samples.rootOf []) Samples.threePlugins [] = Thrown TypeError.
Proof.
  split; [reflexivity|]. split.
  - apply (proj1 (transform_returns_iff string_dec Samples.TO_DISPLAY_STRING
                    Samples.nestedRoot Samples.threePlugins [])).
    reflexivity.
  - split; [reflexivity|].
    apply (proj2 (transform_returns_iff string_dec Samples.TO_DISPLAY_STRING
                    (Samples.rootOf []) Samples.threePlugins [])).
    reflexivity.
Defined.

(* ================================================================== *)
(** * The transform pipeline: the order of the walk *)

Section WalkOrder.

Import Ast Transform Samples Sequencing.
Local Open Scope outcome_scope.

Local Abbreviation traverseNode :=
  (Transform.traverseNode string_dec Samples.TO_DISPLAY_STRING).
Local Abbreviation visitByType :=
  (Transform.visitByType string_dec Samples.TO_DISPLAY_STRING).
Local Abbreviation TransformContext :=
  (@Transform.TransformContext string Log).

Lemma record_all (f : nat -> Event) (ks : list nat) (s : State) :
  fold_left (fun s k => record (f k) s) ks s =
  {| ctx_helpers := ctx_helpers s;
     ctx_world := ctx_world s ++ map f ks |}.
Proof.
  revert s. induction ks as [|k ks IH]; intros s; simpl.
  - rewrite app_nil_r. now destruct s.
  - rewrite IH. unfold record. simpl. now rewrite <- app_assoc.
Qed.

(** The logging plugins, called in order, write their entries in order
    and hand back one cleanup each. *)
Lemma enterInOrder_logging (ks : list nat) (nd : node) (s : State) :
  enterInOrder (loggingPlugins ks) nd s =
  ({| ctx_helpers := ctx_helpers s;
      ctx_world := ctx_world s ++ map (fun k => Enter k (addr nd)) ks |},
   map (fun k => record (Leave k (addr nd))) ks).
Proof.
  revert s. induction ks as [|k ks IH]; intros s.
  - simpl. rewrite app_nil_r. now destruct s.
  - cbn [loggingPlugins map enterInOrder loggingPlugin].
    fold (loggingPlugins ks). rewrite IH.
    unfold record at 1 2. cbn [ctx_helpers ctx_world].
    now rewrite <- app_assoc.
Qed.

Lemma leaveInReverse_logging (ks : list nat) (a : loc) (s : State) :
  leaveInReverse (map (fun k => record (Leave k a)) ks) s =
  {| ctx_helpers := ctx_helpers s;
     ctx_world := ctx_world s ++ map (fun k => Leave k a) (rev ks) |}.
Proof.
  unfold leaveInReverse. rewrite <- map_rev.
  rewrite <- (record_all (fun k => Leave k a) (rev ks) s).
  generalize (rev ks) as l. intros l. revert s.
  induction l as [|k l IH]; intros s; [reflexivity|]. simpl. apply IH.
Qed.

Lemma forEach_logs (ks : list nat) (l : list node) :
  Forall (logsWalk ks) l ->
  forallb walkable l = true ->
  forall context : TransformContext,
    nodeTransforms context = loggingPlugins ks ->
    exists context',
      forEach traverseNode l context = Done context' /\
      ctx_world (state context') =
        ctx_world (state context) ++ flat_map (walkLog ks) l /\
      nodeTransforms context' = nodeTransforms context.
Proof.
  induction 1 as [|nd l Hnd _ IH]; intros Hw context Hts.
  - exists context. simpl. now rewrite app_nil_r.
  - simpl in Hw. apply andb_true_iff in Hw. destruct Hw as [Hw1 Hw2].
    destruct (Hnd Hw1 context Hts) as (c1 & E1 & W1 & T1).
    destruct (IH Hw2 c1) as (c2 & E2 & W2 & T2); [congruence|].
    exists c2. cbn [forEach flat_map]. rewrite E1. cbn [bind].
    repeat split; [exact E2 | | congruence].
    now rewrite W2, W1, <- app_assoc.
Qed.

(** X17.  The walk is a depth-first walk in document order.  Under
    plugins that log their calls, on a tree the walk can go through, the
    log gets, for every node reached, the entries of the plugins in list
    order, then the logs of the children when the node is a root or an
    element, then the cleanups of the plugins in reverse order: each node
    is entered once, before its children, and cleaned up once, after
    them; the children of other kinds of node are not visited. *)
Theorem traverseNode_log (ks : list nat) (nd : node)
    (context : TransformContext) :
  walkable nd = true ->
  nodeTransforms context = loggingPlugins ks ->
  exists context',
    traverseNode nd context = Done context' /\
    ctx_world (state context') = ctx_world (state context) ++ walkLog ks nd.
Proof.
  intros Hw Hts.
  assert (H : logsWalk ks nd).
  { clear. induction nd as [a t c g h IH] using node_induction.
    intros Hw context Hts.
    rewrite traverseNode_unfold, runNodeTransforms_all, Hts.
    rewrite enterInOrder_logging. cbn [addr].
    set (s1 := {| ctx_helpers := ctx_helpers (state context);
                  ctx_world := ctx_world (state context) ++
                               map (fun k => Enter k a) ks |}).
    assert (Hvisit : exists c1,
               visitByType (mkNode a t c g h) (with_state context s1) =
                 Done c1 /\
               ctx_world (state c1) =
                 ctx_world s1 ++
                 match t, c with
                 | (ROOT | ELEMENT), Some l => flat_map (walkLog ks) l
                 | _, _ => []
                 end /\
               nodeTransforms c1 = nodeTransforms context).
    { unfold Transform.visitByType, Transform.traverseChildren,
        Transform.traverseChildrenWith.
      cbn [type children].
      destruct t.
      - destruct c as [l|]; [|discriminate].
        destruct (forEach_logs ks l IH Hw (with_state context s1) Hts)
          as (c1 & E & W & T).
        exists c1. auto.
      - destruct c as [l|]; [|discriminate].
        destruct (forEach_logs ks l IH Hw (with_state context s1) Hts)
          as (c1 & E & W & T).
        exists c1. auto.
      - eexists. split; [reflexivity|].
        unfold Transform.helper.
        cbn [state with_state ctx_world nodeTransforms].
        now rewrite app_nil_r.
      - eexists. split; [reflexivity|].
        cbn [state with_state ctx_world nodeTransforms].
        now rewrite app_nil_r. }
    destruct Hvisit as (c1 & E & W & T). rewrite E. cbn [bind].
    eexists. split; [reflexivity|].
    cbn [state with_state nodeTransforms].
    rewrite runExitFns_all, leaveInReverse_logging.
    cbn [ctx_world]. split; [|congruence].
    rewrite W. unfold s1. cbn [ctx_world walkLog].
    now rewrite <- !app_assoc. }
  destruct (H Hw context Hts) as (context' & E & W & _).
  now exists context'.
Qed.

End WalkOrder.

(** Three plugins over a root with an element that holds an
    interpolation node and a text node. *)
Lemma traverseNode_log_witness :
  exists context',
    Transform.traverseNode string_dec Samples.TO_DISPLAY_STRING
      (Samples.rootOf
         [Samples.element 1 [Samples.interpolation 2; Samples.text 3]])
      (Transform.createTransformContext
         (Samples.rootOf
            [Samples.element 1 [Samples.interpolation 2; Samples.text 3]])
         Samples.threePlugins []) = Done context' /\
    Transform.ctx_world (Transform.state context') =
      [] ++
      Sequencing.walkLog [1; 2; 3]
        (Samples.rootOf
           [Samples.element 1 [Samples.interpolation 2; Samples.text 3]]).
Proof.
  apply (traverseNode_log [1; 2; 3]
           (Samples.rootOf
              [Samples.element 1 [Samples.interpolation 2; Samples.text 3]])
           (Transform.createTransformContext
              (Samples.rootOf
                 [Samples.element 1 [Samples.interpolation 2; Samples.text 3]])
              Samples.threePlugins []));
    reflexivity.
Defined.

(* ================================================================== *)
(** * The entry point *)

Section EntryPoint.

Local Open Scope outcome_scope.

Context {Helper : Type}.
Variable Helper_eq_dec : forall a b : Helper, {a = b} + {a <> b}.
Variable TO_DISPLAY_STRING : Helper.
Context {World : Type}.
Variable transformElement : @Transform.NodeTransform Helper World.
Variable transformText : @Transform.NodeTransform Helper World.
Variable transformExpression : @Transform.NodeTransform Helper World.
Variable generate : @Transform.node Helper -> string.
Variable asNode : Parse.RootNode -> @Transform.node Helper.

Local Abbreviation baseCompile :=
  (Compile.baseCompile Helper_eq_dec TO_DISPLAY_STRING transformElement
     transformText transformExpression generate asNode).

(** X18.  [baseCompile] produces code for no template.  The call ends
    the way its first step, [baseParse], ends, by running for ever or by
    the parser's exception; as [baseParse] never returns a tree, neither
    [transform] nor the code generator is ever reached, whatever the
    plugins, the generator and the options are. *)
Theorem baseCompile_never_returns (fuel : nat) (template : string)
    (options : @Transform.Options Helper World) (world : World) :
  (forall code, baseCompile fuel template options world <> Done code) /\
  baseCompile fuel template options world =
    match Parse.baseParse fuel template with
    | Thrown e => Thrown e
    | _ => OutOfFuel
    end.
Proof.
  unfold Compile.baseCompile.
  pose proof (baseParse_never_returns fuel template) as Hnever.
  destruct (Parse.baseParse fuel template) as [ast | e |]; cbn [bind].
  - now contradiction (Hnever ast).
  - split; [discriminate | reflexivity].
  - split; [discriminate | reflexivity].
Qed.

End EntryPoint.


(* ================================================================== *)
(** * The parser: interpolation sites in the children loop *)

Section SitesInLoop.

Import Ast Parse.
Local Open Scope string_scope.
Local Open Scope outcome_scope.

Lemma parseInterpolation_at_index raw rest :
  JS.indexOf ("{{" ++ raw ++ "}}" ++ rest) "}}" 2 =
    (2 + Z.of_nat (String.length raw))%Z ->
  parseInterpolation (Parse.mkContext ("{{" ++ raw ++ "}}" ++ rest)) =
  (None, Parse.mkContext rest).
Proof.
  intros Hidx.
  assert (H1 : JS.sliceFrom ("{{" ++ raw ++ "}}" ++ rest) 2 =
               raw ++ "}}" ++ rest)
    by exact (sliceFrom_app "{{" (raw ++ "}}" ++ rest)).
  assert (H2 : JS.slice (raw ++ "}}" ++ rest) 0
                 (2 + Z.of_nat (String.length raw) - 2) = raw).
  { replace (2 + Z.of_nat (String.length raw) - 2)%Z
      with (Z.of_nat (String.length raw)) by lia.
    apply slice_0_app. }
  assert (H3 : JS.sliceFrom (raw ++ "}}" ++ rest)
                 (Z.of_nat (String.length raw)) = "}}" ++ rest)
    by apply sliceFrom_app.
  assert (H4 : JS.sliceFrom ("}}" ++ rest) 2 = rest)
    by exact (sliceFrom_app "}}" rest).
  unfold parseInterpolation, parseTextData, advanceBy.
  cbn [source String.length]. change (Z.of_nat 2) with 2%Z.
  now rewrite Hidx, H1, H2, H3, H4.
Qed.

(** X19.  An interpolation site leaves no trace in the loop of
    [parseChildren]: when the source starts with an interpolation whose
    first closer ends the raw span [raw], one turn of the loop consumes
    the whole site, keeps nothing of it, and goes on with what follows,
    whatever elements are open. *)
Theorem interpolation_site_dropped raw rest ancestors fuel :
  JS.indexOf ("{{" ++ raw ++ "}}" ++ rest) "}}" 2 =
    (2 + Z.of_nat (String.length raw))%Z ->
  parseChildren (S fuel)
    (Parse.mkContext ("{{" ++ raw ++ "}}" ++ rest)) ancestors =
  parseChildren fuel (Parse.mkContext rest) ancestors.
Proof.
  intros Hidx. rewrite parseChildren_step.
  assert (Hend : isEnd (Parse.mkContext ("{{" ++ raw ++ "}}" ++ rest))
                   ancestors = false).
  { unfold isEnd. cbn [source].
    destruct (JS.startsWith ("{{" ++ raw ++ "}}" ++ rest) "</") eqn:E;
      [|reflexivity].
    apply startsWith_inv in E. destruct E as [r E]. discriminate. }
  rewrite Hend. cbv zeta. cbn [source].
  unfold Parse.startsWith. rewrite startsWith_app.
  now rewrite parseInterpolation_at_index.
Qed.

End SitesInLoop.

(** An interpolation site followed by text, inside a div. *)
Lemma interpolation_site_dropped_witness :
  JS.indexOf ("{{" ++ " msg " ++ "}}" ++ "tail") "}}" 2 =
    (2 + Z.of_nat (String.length " msg "))%Z /\
  Parse.parseChildren 3
    (Parse.mkContext ("{{" ++ " msg " ++ "}}" ++ "tail"))
    [Samples.divElement] =
  Parse.parseChildren 2 (Parse.mkContext "tail") [Samples.divElement].
Proof.
  split; [reflexivity|].
  apply (interpolation_site_dropped " msg " "tail" [Samples.divElement] 2).
  reflexivity.
Defined.
